(** * Simon Says memory game (SimonGame_Final_JuneTwentyFive.ino)

    A shallow embedding of the Arduino sketch: the globals of the sketch
    and the peripherals it drives are one record, every function of the
    sketch is a function on that record, and the claims of the
    specification are theorems about those functions.

    Hardware model.  Output calls (digitalWrite, tone, noTone, delay, the
    LCD, EEPROM.write) append to an event log; [delay] also advances the
    millisecond clock.  Input is scripted: every [digitalRead] consumes
    the next sample of the script, a sample being the list of pins that
    are pulled LOW at that moment; once the script is used up the pins
    read HIGH (INPUT_PULLUP, nothing pressed).  [random] consumes the next
    raw value of a scripted generator.

    Time.  The clock counts the milliseconds spent in [delay]; reads and
    writes take none.  The sketch looks at millis() in one place only,
    the loop of readButtonsWithCountdown, and leaves that loop as soon as
    a press is confirmed: the time a button is then held down (the wait
    for its release, lines 166 and 194) is never measured by the sketch
    and is not on the clock.  The statements about time below are about
    the scans and the output, up to the confirmation of a press, and say
    nothing of how long a button is held.  A script is finite and reads
    HIGH at its end, so every press of a script ends. *)

From Stdlib Require Import ZArith Lia Bool String.
From stdpp Require Import base list gmap.

Local Open Scope Z_scope.

(** ** Machine integers *)

(** [byte] is uint8_t, [int] is 16 bits on the AVR, [unsigned long] 32. *)
Definition to_byte (z : Z) : Z := z mod 256.
Definition to_int (z : Z) : Z := (z + 32768) mod 65536 - 32768.
Definition to_ulong (z : Z) : Z := z mod 4294967296.

(** ** Peripherals *)

Inductive level := LOW | HIGH.

(** pitches.h is not part of the sources: the notes stay symbolic. *)
Inductive note :=
  | NOTE_D2 | NOTE_A2 | NOTE_G3 | NOTE_C4 | NOTE_E4 | NOTE_G4 | NOTE_A4
  | NOTE_C5 | NOTE_CS5 | NOTE_D5 | NOTE_DS5 | NOTE_E5 | NOTE_G5.

Inductive event :=
  | DigitalWrite (pin : Z) (v : level)
  | Tone (pin : Z) (n : note) (offset : Z)
  | NoTone (pin : Z)
  | Delay (ms : Z)
  | LcdClear
  | LcdSetCursor (col row : Z)
  | LcdPrint (s : string)
  | LcdPrintNum (n : Z)
  | EepromWrite (addr val : Z).

(** The pins that read LOW when the sample is taken. *)
Definition sample := list Z.

Definition is_low (s : sample) (pin : Z) : bool := existsb (Z.eqb pin) s.

Inductive GameMode := CLASSIC | SPEED | REVERSE | STEALTH.

Definition GameMode_eqb (a b : GameMode) : bool :=
  match a, b with
  | CLASSIC, CLASSIC | SPEED, SPEED | REVERSE, REVERSE | STEALTH, STEALTH => true
  | _, _ => false
  end.

(** ** Constants of the sketch *)

Definition ledPins : list Z := [4; 5; 6; 7].
Definition buttonPins : list Z := [0; 1; 2; 3].
Definition speaker : Z := 10.
Definition resetPin : Z := 8.
Definition MAX_GAME_LENGTH : Z := 100.
Definition gameTones : list note := [NOTE_G3; NOTE_C4; NOTE_E4; NOTE_G5].
Definition highScoreAddress : Z := 0.

(** Array reads.  Every index the sketch uses is in range in the states
    the theorems are about; the defaults below are never reached there. *)
Definition ledPins_at (i : Z) : Z := nth (Z.to_nat i) ledPins 0.
Definition buttonPins_at (i : Z) : Z := nth (Z.to_nat i) buttonPins 0.
Definition gameTones_at (i : Z) : note := nth (Z.to_nat i) gameTones NOTE_G3.

(** ** The state: globals of the sketch and the world around it *)

Record state := mkState {
  gameSequence : list Z;
  Level : Z;
  lives : Z;
  isMuted : bool;
  currentMode : GameMode;
  eeprom : gmap Z Z;
  pins : list sample;
  rnd : list Z;
  clock : Z;
  out : list event
}.

Definition set_gameSequence (v : list Z) (st : state) : state :=
  mkState v (Level st) (lives st) (isMuted st) (currentMode st)
          (eeprom st) (pins st) (rnd st) (clock st) (out st).
Definition set_Level (v : Z) (st : state) : state :=
  mkState (gameSequence st) v (lives st) (isMuted st) (currentMode st)
          (eeprom st) (pins st) (rnd st) (clock st) (out st).
Definition set_lives (v : Z) (st : state) : state :=
  mkState (gameSequence st) (Level st) v (isMuted st) (currentMode st)
          (eeprom st) (pins st) (rnd st) (clock st) (out st).
Definition set_eeprom (v : gmap Z Z) (st : state) : state :=
  mkState (gameSequence st) (Level st) (lives st) (isMuted st) (currentMode st)
          v (pins st) (rnd st) (clock st) (out st).
Definition set_pins (v : list sample) (st : state) : state :=
  mkState (gameSequence st) (Level st) (lives st) (isMuted st) (currentMode st)
          (eeprom st) v (rnd st) (clock st) (out st).
Definition set_rnd (v : list Z) (st : state) : state :=
  mkState (gameSequence st) (Level st) (lives st) (isMuted st) (currentMode st)
          (eeprom st) (pins st) v (clock st) (out st).

(** ** Arduino primitives *)

Definition emit (e : event) (st : state) : state :=
  mkState (gameSequence st) (Level st) (lives st) (isMuted st) (currentMode st)
          (eeprom st) (pins st) (rnd st) (clock st) (out st ++ [e]).

Definition digitalWrite (pin : Z) (v : level) : state -> state :=
  emit (DigitalWrite pin v).
Definition tone (pin : Z) (n : note) : state -> state := emit (Tone pin n 0).
Definition tone_offset (pin : Z) (n : note) (k : Z) : state -> state :=
  emit (Tone pin n k).
Definition noTone (pin : Z) : state -> state := emit (NoTone pin).

Definition delay (ms : Z) (st : state) : state :=
  mkState (gameSequence st) (Level st) (lives st) (isMuted st) (currentMode st)
          (eeprom st) (pins st) (rnd st) (to_ulong (clock st + ms))
          (out st ++ [Delay ms]).

Definition millis (st : state) : Z := clock st.

Definition digitalRead (pin : Z) (st : state) : level * state :=
  match pins st with
  | [] => (HIGH, st)
  | s :: rest => (if is_low s pin then LOW else HIGH, set_pins rest st)
  end.

(** random(min, max) = min + raw % (max - min), raw from the generator. *)
Definition random (lo hi : Z) (st : state) : Z * state :=
  match rnd st with
  | [] => (lo, st)
  | x :: rest => (lo + x mod (hi - lo), set_rnd rest st)
  end.

Definition EEPROM_read (addr : Z) (st : state) : Z :=
  default 255 (eeprom st !! addr).

Definition EEPROM_write (addr val : Z) (st : state) : state :=
  emit (EepromWrite addr val) (set_eeprom (<[addr := val]> (eeprom st)) st).

Definition lcd_clear : state -> state := emit LcdClear.
Definition lcd_setCursor (c r : Z) : state -> state := emit (LcdSetCursor c r).
Definition lcd_print (s : string) : state -> state := emit (LcdPrint s).
Definition lcd_print_num (n : Z) : state -> state := emit (LcdPrintNum n).

(** [for (i = a; ...; i++) body], [n] iterations. *)
Fixpoint for_loop (n : nat) (i : Z) (body : Z -> state -> state) (st : state)
  : state :=
  match n with
  | O => st
  | S n' => for_loop n' (i + 1) body (body i st)
  end.

(** ** Sounds and lights *)

(** [flashAllLEDsSync(times, delayTime)] *)
Definition flashAllLEDsSync (times : nat) (delayTime : Z) (st : state) : state :=
  for_loop times 0 (fun _ st =>
    let st := for_loop 4 0 (fun i => digitalWrite (ledPins_at i) HIGH) st in
    let st := delay delayTime st in
    let st := for_loop 4 0 (fun i => digitalWrite (ledPins_at i) LOW) st in
    delay delayTime st) st.

Definition celebrate_notes : list note :=
  [NOTE_E4; NOTE_G4; NOTE_E5; NOTE_C5; NOTE_D5; NOTE_G5].

Definition celebrateCorrectSequence (st : state) : state :=
  for_loop 6 0 (fun i st =>
    let st := digitalWrite (ledPins_at (i mod 4)) HIGH st in
    let st := if isMuted st then st
              else tone speaker (nth (Z.to_nat i) celebrate_notes NOTE_E4) st in
    let st := delay 150 st in
    let st := digitalWrite (ledPins_at (i mod 4)) LOW st in
    if isMuted st then st else noTone speaker st) st.

Definition playMistakeSound (st : state) : state :=
  let st := if isMuted st then st else tone speaker NOTE_A2 st in
  let st := delay 150 st in
  let st := if isMuted st then st else tone speaker NOTE_D2 st in
  let st := delay 150 st in
  if isMuted st then st else noTone speaker st.

(** Light up LED and play sound for the color at given index *)
Definition lightLedAndPlayTone (i : Z) (st : state) : state :=
  let st := digitalWrite (ledPins_at i) HIGH st in
  let st := if isMuted st then st else tone speaker (gameTones_at i) st in
  let st := delay 300 st in
  let st := digitalWrite (ledPins_at i) LOW st in
  if isMuted st then st else noTone speaker st.

Definition playToneOnly (i : Z) (st : state) : state :=
  let st := if isMuted st then st else tone speaker (gameTones_at i) st in
  let st := delay 300 st in
  if isMuted st then st else noTone speaker st.

(** gameSequence[i] *)
Definition gameSequence_at (i : Z) (st : state) : Z :=
  nth (Z.to_nat i) (gameSequence st) 0.

(** The body of the loop of playSequence, lines 140-155. *)
Definition playSequence_body (speed : Z) (i : Z) (st : state) : state :=
  let current := gameSequence_at i st in
  let st :=
    if GameMode_eqb (currentMode st) STEALTH then
      if negb (isMuted st) then
        let st := tone speaker (gameTones_at current) st in
        let st := delay 300 st in
        noTone speaker st
      else delay 300 st
    else lightLedAndPlayTone current st in
  delay speed st.

Definition playSequence (st : state) : state :=
  let speed := to_int (Z.max 100 (to_int (400 - to_int (Level st * 10)))) in
  for_loop (Z.to_nat (Level st)) 0 (playSequence_body speed) st.

(** ** Reading the buttons *)

(** [while (digitalRead(pin) == LOW);] on the script: the samples up to
    and including the first one that reads HIGH are consumed.  The loop
    has no deadline and no delay: it lasts as long as the button is held,
    which the clock of the model does not count. *)
Fixpoint release_script (pin : Z) (l : list sample) : list sample :=
  match l with
  | [] => []
  | s :: rest => if is_low s pin then release_script pin rest else rest
  end.

Definition wait_release (pin : Z) (st : state) : state :=
  set_pins (release_script pin (pins st)) st.

(** One button of the scan (lines 163-169, and again 191-197): [true]
    when the function returns this button. *)
Definition try_button (i : Z) (st : state) : bool * state :=
  let (v, st) := digitalRead (buttonPins_at i) st in
  match v with
  | LOW =>
      let st := delay 20 st in
      let (v2, st) := digitalRead (buttonPins_at i) st in
      match v2 with
      | LOW => (true, wait_release (buttonPins_at i) st)
      | HIGH => (false, st)
      end
  | HIGH => (false, st)
  end.

(** [for (byte i = ...; i < 4; i++)] over the buttons, [n] buttons left. *)
Fixpoint poll_buttons (n : nat) (i : Z) (st : state) : option Z * state :=
  match n with
  | O => (None, st)
  | S n' =>
      let (hit, st') := try_button i st in
      if hit then (Some i, st') else poll_buttons n' (i + 1) st'
  end.

(** [readButtonsDebounced], [fuel] rounds of its [while (true)];
    [None]: no press was registered in that many rounds. *)
Fixpoint readButtonsDebounced_fuel (fuel : nat) (st : state)
  : option (Z * state) :=
  match fuel with
  | O => None
  | S fuel' =>
      match poll_buttons 4 0 st with
      | (Some i, st') => Some (i, st')
      | (None, st') => readButtonsDebounced_fuel fuel' (delay 1 st')
      end
  end.

(** A round that registers nothing consumes a sample or meets the end of
    the script, after which no round registers anything
    ([readButtonsDebounced_adequate]): [None] is "blocks for ever". *)
Definition readButtonsDebounced (st : state) : option (Z * state) :=
  readButtonsDebounced_fuel (S (length (pins st))) st.

Definition countdown_display (remaining : Z) (st : state) : state :=
  let st := lcd_clear st in
  let st := lcd_setCursor 3 0 st in
  let st := lcd_print "Your turn!" st in
  let st := lcd_setCursor 3 1 st in
  let st := lcd_print "Time left: " st in
  lcd_print_num (to_int (remaining + 1)) st.

(** The [while (millis() - start < countdownTime)] of
    readButtonsWithCountdown; [None]: out of fuel. *)
Fixpoint countdown_loop (fuel : nat) (countdownTime start lastSecond : Z)
  (st : state) : option (Z * state) :=
  if to_ulong (millis st - start) <? countdownTime then
    match fuel with
    | O => None
    | S fuel' =>
        let elapsed := to_ulong (millis st - start) in
        let remaining := to_int (to_ulong (countdownTime - elapsed) / 1000) in
        let st := if negb (remaining =? lastSecond)
                  then countdown_display remaining st else st in
        let lastSecond := if negb (remaining =? lastSecond)
                          then remaining else lastSecond in
        match poll_buttons 4 0 st with
        | (Some i, st') => Some (i, st')
        | (None, st') =>
            countdown_loop fuel' countdownTime start lastSecond (delay 10 st')
        end
    end
  else Some (255, st).

(** Every round of the loop takes at least 10 ms
    ([readButtonsWithCountdown_total]). *)
Definition readButtonsWithCountdown (countdownTime : Z) (st : state)
  : option (Z * state) :=
  countdown_loop (S (Z.to_nat (countdownTime / 10))) countdownTime
                 (millis st) (-1) st.

(** ** Verification of the player's input *)

Definition expected_at (i : Z) (st : state) : Z :=
  if GameMode_eqb (currentMode st) REVERSE
  then gameSequence_at (to_int (to_int (Level st - 1) - i)) st
  else gameSequence_at i st.

Definition read_input (st : state) : option (Z * state) :=
  if GameMode_eqb (currentMode st) SPEED
  then readButtonsWithCountdown 3000 st
  else readButtonsDebounced st.

Definition echo (actual : Z) (st : state) : state :=
  if GameMode_eqb (currentMode st) STEALTH
  then playToneOnly actual st
  else lightLedAndPlayTone actual st.

(** The loop of checkUserSequence from step [i], [n] steps left;
    [None]: the blocking reader never returns. *)
Fixpoint check_from (n : nat) (i : Z) (st : state) : option (bool * state) :=
  match n with
  | O => Some (true, st)
  | S n' =>
      let expected := expected_at i st in
      match read_input st with
      | None => None
      | Some (actual, st) =>
          if (actual =? 255) || negb (expected =? actual) then
            Some (false, set_lives (to_byte (lives st - 1)) st)
          else check_from n' (i + 1) (echo actual st)
      end
  end.

Definition checkUserSequence (st : state) : option (bool * state) :=
  check_from (Z.to_nat (Level st)) 0 st.

(** ** High score *)

Definition updateHighScore (score : Z) (st : state) : state :=
  let currentHigh := EEPROM_read highScoreAddress st in
  if (currentHigh =? 255) || (score >? currentHigh)
  then EEPROM_write highScoreAddress score st
  else st.

(** ** Game over *)

(** Lines 235-261 of showGameOver: the score and the failure jingle. *)
Definition gameOverScreen (st : state) : state :=
  let st := lcd_clear st in
  let st := lcd_setCursor 3 0 st in
  let st := lcd_print "Game Over!" st in
  let st := lcd_setCursor 2 1 st in
  let st := lcd_print "Score: " st in
  let st := lcd_print_num (to_int (Level st - 1)) st in
  let st := delay 2000 st in
  let st := for_loop 3 0 (fun _ st =>
    let st := for_loop 4 0 (fun j => digitalWrite (ledPins_at j) HIGH) st in
    let st := if isMuted st then st else tone speaker NOTE_DS5 st in
    let st := delay 150 st in
    let st := if isMuted st then st else tone speaker NOTE_D5 st in
    let st := delay 150 st in
    let st := if isMuted st then st else tone speaker NOTE_CS5 st in
    let st := delay 150 st in
    let st := for_loop 4 0 (fun j => digitalWrite (ledPins_at j) LOW) st in
    let st := if isMuted st then st else noTone speaker st in
    delay 100 st) st in
  if negb (isMuted st) then
    let st := for_loop 10 0 (fun _ st =>
      for_loop 21 (-10) (fun pitch st =>
        delay 5 (tone_offset speaker NOTE_C5 pitch st)) st) st in
    noTone speaker st
  else st.

(** showGameOver up to its final [while (true);], which never exits: the
    caller ([loop]) turns the state returned here into [Halted]. *)
Definition showGameOver (st : state) : state :=
  let st := gameOverScreen st in
  let st := updateHighScore (to_byte (to_int (Level st - 1))) st in
  let high := EEPROM_read highScoreAddress st in
  let st := lcd_clear st in
  let st := lcd_setCursor 1 0 st in
  let st := lcd_print "High Score: " st in
  let st := lcd_print_num high st in
  let st := delay 4000 st in
  lcd_clear st.

(** ** The main loop *)

(** Lines 378-380 of loop(): the sequence grows by one random colour. *)
Definition extend (st : state) : state :=
  let (r, st) := random 0 4 st in
  let st := set_gameSequence
              (<[Z.to_nat (Level st) := to_byte r]> (gameSequence st)) st in
  let st := set_Level (to_byte (Level st + 1)) st in
  if Level st >=? MAX_GAME_LENGTH then set_Level (MAX_GAME_LENGTH - 1) st
  else st.

(** What one call of loop() leads to: it returns, it ends in the
    [while (true);] of showGameOver, or it waits for a button for ever. *)
Inductive outcome :=
  | Running (st : state)
  | Halted (st : state)
  | Blocked.

Definition report_wrong (st : state) : state :=
  let st := lcd_clear st in
  let st := lcd_setCursor 3 0 st in
  let st := lcd_print "Wrong!" st in
  let st := if lives st >? 0
            then flashAllLEDsSync 1 200 (playMistakeSound st) else st in
  let st := lcd_setCursor 1 1 st in
  let st := lcd_print "Lives left: " st in
  let st := lcd_print_num (lives st) st in
  delay 2000 st.

Definition report_correct (st : state) : state :=
  let st := lcd_clear st in
  let st := lcd_setCursor 4 0 st in
  let st := lcd_print "Correct!" st in
  let st := celebrateCorrectSequence st in
  delay 1000 st.

Definition report_status (st : state) : state :=
  let st := lcd_clear st in
  let st := lcd_setCursor 0 0 st in
  let st := lcd_print "Sequence " st in
  let st := lcd_print_num (Level st) st in
  let st := lcd_setCursor 0 1 st in
  let st := lcd_print "Lives: " st in
  let st := lcd_print_num (lives st) st in
  delay 1000 st.

Definition loop (st : state) : outcome :=
  if lives st =? 0 then Halted (showGameOver st)
  else
    let st := extend st in
    let st := playSequence st in
    match checkUserSequence st with
    | None => Blocked
    | Some (ok, st) =>
        let st := if negb ok then report_wrong st else report_correct st in
        Running (report_status st)
    end.

(** The Arduino runtime calls loop() again whenever it returns. *)
Definition step (o : outcome) : outcome :=
  match o with
  | Running st => loop st
  | Halted st => Halted st
  | Blocked => Blocked
  end.

Definition run (n : nat) (st : state) : outcome := Nat.iter n step (Running st).

(** The globals as the sketch initialises them, in a given world. *)
Definition power_on (mode : GameMode) (muted : bool) (rom : gmap Z Z)
  (script : list sample) (raw : list Z) : state :=
  mkState (replicate 100 0) 0 3 muted mode rom script raw 0 [].

(** ** Start-up *)

Definition set_isMuted (v : bool) (st : state) : state :=
  mkState (gameSequence st) (Level st) (lives st) v (currentMode st)
          (eeprom st) (pins st) (rnd st) (clock st) (out st).
Definition set_currentMode (v : GameMode) (st : state) : state :=
  mkState (gameSequence st) (Level st) (lives st) (isMuted st) v
          (eeprom st) (pins st) (rnd st) (clock st) (out st).

Definition intro_melody : list note :=
  [NOTE_C4; NOTE_E4; NOTE_G4; NOTE_C5; NOTE_G4; NOTE_E4; NOTE_C4].
Definition intro_durations : list Z := [300; 300; 300; 500; 300; 300; 400].

Definition playIntroMusic (st : state) : state :=
  for_loop 7 0 (fun i st =>
    let st := if isMuted st then st
              else tone speaker (nth (Z.to_nat i) intro_melody NOTE_C4) st in
    let st := delay (nth (Z.to_nat i) intro_durations 0) st in
    let st := if isMuted st then st else noTone speaker st in
    delay 50 st) st.

Definition playModeSelectSound (mode : GameMode) (st : state) : state :=
  if isMuted st then st
  else
    let st :=
      match mode with
      | CLASSIC =>
          let st := tone speaker NOTE_C4 st in delay 150 st
      | SPEED =>
          let st := tone speaker NOTE_G4 st in
          let st := delay 80 st in
          let st := tone speaker NOTE_G5 st in delay 80 st
      | REVERSE =>
          let st := tone speaker NOTE_C5 st in
          let st := delay 100 st in
          let st := tone speaker NOTE_A4 st in delay 100 st
      | STEALTH =>
          let st := tone speaker NOTE_E4 st in
          let st := delay 70 st in
          let st := noTone speaker st in
          let st := delay 50 st in
          let st := tone speaker NOTE_E4 st in delay 70 st
      end in
    noTone speaker st.

Definition playStealthIntro (st : state) : state :=
  let st := lcd_clear st in
  let st := lcd_setCursor 0 0 st in
  let st := lcd_print "Memorize Sounds" st in
  let st := lcd_setCursor 0 1 st in
  let st := lcd_print "1 per color..." st in
  let st := delay 1500 st in
  let st := for_loop 4 0 (fun i st =>
    let st := digitalWrite (ledPins_at i) HIGH st in
    let st := if isMuted st then st else tone speaker (gameTones_at i) st in
    let st := delay 600 st in
    let st := digitalWrite (ledPins_at i) LOW st in
    let st := if isMuted st then st else noTone speaker st in
    delay 200 st) st in
  let st := lcd_clear st in
  let st := lcd_setCursor 0 0 st in
  let st := lcd_print "Replicate the" st in
  let st := lcd_setCursor 0 1 st in
  let st := lcd_print "Sequence!" st in
  delay 2000 st.

Definition checkForMuteToggle (st : state) : state :=
  let st := lcd_clear st in
  let st := lcd_setCursor 2 0 st in
  let st := lcd_print "Hold Green" st in
  let st := lcd_setCursor 3 1 st in
  let st := lcd_print "to Mute..." st in
  let st := delay 1500 st in
  let (v, st) := digitalRead (buttonPins_at 1) st in
  match v with
  | LOW =>
      let st := set_isMuted true st in
      let st := lcd_clear st in
      let st := lcd_setCursor 4 0 st in
      let st := lcd_print "Muted!" st in
      delay 1000 st
  | HIGH =>
      let st := lcd_clear st in
      let st := lcd_setCursor 3 0 st in
      let st := lcd_print "Sound ON" st in
      delay 1000 st
  end.

(** static_cast<GameMode>(i) *)
Definition GameMode_of (i : Z) : GameMode :=
  if i =? 0 then CLASSIC else if i =? 1 then SPEED
  else if i =? 2 then REVERSE else STEALTH.

Definition mode_name (i : Z) : string :=
  if i =? 0 then "Classic" else if i =? 1 then "Speed"
  else if i =? 2 then "Reverse" else "Stealth".

(** Lines 312-327 of showModeSelection: button [i] has been pressed. *)
Definition mode_selected (i : Z) (st : state) : state :=
  let st := set_currentMode (GameMode_of i) st in
  let st := playModeSelectSound (currentMode st) st in
  let st := lcd_clear st in
  let st := lcd_print (mode_name i) st in
  let st := lcd_print " Mode" st in
  let st := delay 2000 st in
  let st := lcd_clear st in
  let st := lcd_setCursor 0 0 st in
  let st := lcd_print "Replicate the" st in
  let st := lcd_setCursor 0 1 st in
  let st := lcd_print "Sequence!" st in
  let st := delay 2000 st in
  if GameMode_eqb (currentMode st) STEALTH then playStealthIntro st else st.

(** The [while (true)] of showModeSelection, [fuel] rounds; the scan of
    the buttons is the one of the readers, and there is no delay between
    two rounds. *)
Fixpoint showModeSelection_fuel (fuel : nat) (st : state) : option state :=
  match fuel with
  | O => None
  | S fuel' =>
      match poll_buttons 4 0 st with
      | (Some i, st') => Some (mode_selected i st')
      | (None, st') => showModeSelection_fuel fuel' st'
      end
  end.

(** As for [readButtonsDebounced], a round that selects nothing consumes
    a sample or meets the end of the script
    ([showModeSelection_adequate]); [None]: no mode is ever selected. *)
Definition showModeSelection (st : state) : option state :=
  let st := lcd_clear st in
  let st := lcd_setCursor 0 0 st in
  let st := lcd_print "Select Game Mode" st in
  let st := lcd_setCursor 0 1 st in
  let st := lcd_print "Y:C G:S R:R B:St" st in
  showModeSelection_fuel (S (length (pins st))) st.

(** Serial.begin, pinMode, randomSeed(analogRead(A0)), lcd.init and
    lcd.backlight configure the peripherals: the pull-ups are why an open
    button reads HIGH, the generator is scripted, and nothing is written
    to the display. *)
Definition configure (st : state) : state := st.

Definition setup (st : state) : option state :=
  let st := configure st in
  let st := lcd_clear st in
  let st := lcd_setCursor 3 0 st in
  let st := lcd_print "Welcome to" st in
  let st := lcd_setCursor 5 1 st in
  let st := lcd_print "Simon!" st in
  let st := playIntroMusic st in
  let st := noTone speaker st in
  let st := delay 1000 st in
  let st := checkForMuteToggle st in
  let (v, st) := digitalRead resetPin st in
  let st :=
    match v with
    | LOW =>
        let st := EEPROM_write highScoreAddress 0 st in
        let st := lcd_clear st in
        let st := lcd_setCursor 2 0 st in
        let st := lcd_print "High Score Reset" st in
        delay 2000 st
    | HIGH => st
    end in
  showModeSelection st.

(** The sketch: setup(), then loop() [n] times. *)
Definition sketch (n : nat) (st : state) : outcome :=
  match setup st with
  | None => Blocked
  | Some st => run n st
  end.

(** A game in progress: the sequence [seq] has been generated, all three
    lives are left, the player's input is [script]. *)
Definition playing (mode : GameMode) (muted : bool) (seq : list Z)
  (script : list sample) : state :=
  mkState (seq ++ replicate (100 - length seq) 0) (Z.of_nat (length seq)) 3
          muted mode ∅ script [] 0 [].

(** A hundred calls of extend after power-on: Level has been clamped
    and gameSequence[99] holds the last colour drawn. *)
Definition at_cap : state :=
  Nat.iter 100 extend
    (power_on CLASSIC false ∅ [] (replicate 99 0 ++ [1; 2])).

(** ** Vocabulary of the statements *)

(** The Sequence of the specification: the first [Level] cells. *)
Definition sequence (st : state) : list Z :=
  take (Z.to_nat (Level st)) (gameSequence st).

(** States the sketch can be in when loop() starts. *)
Definition wf (st : state) : Prop :=
  length (gameSequence st) = 100%nat /\
  0 <= Level st <= 99 /\
  0 <= lives st <= 3 /\
  Forall (fun c => 0 <= c <= 3) (gameSequence st).

(** The events of one cue, for colour [c]. *)
Definition cue (mode : GameMode) (muted : bool) (c : Z) : list event :=
  match mode, muted with
  | STEALTH, false =>
      [Tone speaker (gameTones_at c) 0; Delay 300; NoTone speaker]
  | STEALTH, true => [Delay 300]
  | _, false =>
      [DigitalWrite (ledPins_at c) HIGH; Tone speaker (gameTones_at c) 0;
       Delay 300; DigitalWrite (ledPins_at c) LOW; NoTone speaker]
  | _, true =>
      [DigitalWrite (ledPins_at c) HIGH; Delay 300;
       DigitalWrite (ledPins_at c) LOW]
  end.

Definition is_light (e : event) : bool :=
  match e with DigitalWrite _ _ => true | _ => false end.
Definition is_tone (e : event) : bool :=
  match e with Tone _ _ _ => true | _ => false end.

(** Milliseconds spent in the delays of a trace. *)
Fixpoint duration (evs : list event) : Z :=
  match evs with
  | [] => 0
  | Delay ms :: r => ms + duration r
  | _ :: r => duration r
  end.

(** The events of the failure jingle: lights, tones and pauses. *)
Definition is_jingle (e : event) : bool :=
  match e with
  | DigitalWrite _ _ | Tone _ _ _ | NoTone _ | Delay _ => true
  | _ => false
  end.

(** The globals as they are when loop() is called for the first time. *)
Definition booted (st : state) : Prop :=
  gameSequence st = replicate 100 0 /\ Level st = 0 /\ lives st = 3.

(** [k] steps of the verification accepted from step [i] on. *)
Fixpoint accept_steps (k : nat) (i : Z) (st : state) : option state :=
  match k with
  | O => Some st
  | S k' =>
      match read_input st with
      | None => None
      | Some (actual, st1) =>
          if (actual =? 255) || negb (expected_at i st =? actual) then None
          else accept_steps k' (i + 1) (echo actual st1)
      end
  end.

(** No button is seen closed in two consecutive samples: every closure
    is over when it is polled again. *)
Fixpoint bounce_only (l : list sample) : bool :=
  match l with
  | s1 :: ((s2 :: _) as rest) =>
      forallb (fun p => negb (is_low s1 p && is_low s2 p)) buttonPins
      && bounce_only rest
  | _ => true
  end.

(** Button [i] seen closed in two consecutive samples of the script. *)
Definition closed_twice (i : Z) (l : list sample) : Prop :=
  exists pre s1 s2 post,
    l = pre ++ s1 :: s2 :: post /\
    is_low s1 (buttonPins_at i) = true /\ is_low s2 (buttonPins_at i) = true.

(** The polls of the buttons before [i] find them open. *)
Fixpoint passes (i : Z) (pre : list sample) : Prop :=
  match pre with
  | [] => True
  | s :: r => is_low s (buttonPins_at i) = false /\ passes (i + 1) r
  end.

(** The stored high score after the candidates [l], in order. *)
Definition updates (l : list Z) (st : state) : state :=
  fold_left (fun st s => updateHighScore s st) l st.

(** One press of button [i] alone, as the reader samples it: closed while
    buttons 0..i-1 and then [i] are polled, at the re-poll and [held]
    polls longer, then open. *)
Definition press (i : Z) (held : nat) : list sample :=
  replicate (Z.to_nat i + 2 + held) [buttonPins_at i] ++ [[]].

(** [frame st st']: the globals, the EEPROM and the generator are the
    same in both states. *)
Definition frame (st st' : state) : Prop :=
  gameSequence st' = gameSequence st /\ Level st' = Level st /\
  lives st' = lives st /\ isMuted st' = isMuted st /\
  currentMode st' = currentMode st /\ eeprom st' = eeprom st /\
  rnd st' = rnd st.

(** [quiet st st']: moreover nothing was read from the script. *)
Definition quiet (st st' : state) : Prop :=
  frame st st' /\ pins st' = pins st.

#[global] Arguments ledPins_at : simpl never.
#[global] Arguments buttonPins_at : simpl never.
#[global] Arguments gameTones_at : simpl never.
#[global] Arguments to_ulong : simpl never.
#[global] Arguments to_int : simpl never.
#[global] Arguments to_byte : simpl never.
#[global] Arguments bounce_only : simpl never.
#[global] Arguments poll_buttons : simpl never.
#[global] Arguments updateHighScore : simpl never.
#[global] Arguments gameOverScreen : simpl never.
#[global] Arguments try_button : simpl never.

(** The LEDs that are on after the events [evs], [acc] being on before. *)
Fixpoint lit (acc : list Z) (evs : list event) : list Z :=
  match evs with
  | [] => acc
  | DigitalWrite p HIGH :: r => lit (p :: acc) r
  | DigitalWrite p LOW :: r => lit (List.filter (fun q => negb (q =? p)) acc) r
  | _ :: r => lit acc r
  end.

(** Whether the speaker sounds after the events [evs]. *)
Fixpoint sounding (acc : bool) (evs : list event) : bool :=
  match evs with
  | [] => acc
  | Tone _ _ _ :: r => sounding true r
  | NoTone _ :: r => sounding false r
  | _ :: r => sounding acc r
  end.

(** Every LED is off and the speaker is silent after the log [l]. *)
Definition quiescent (l : list event) : Prop :=
  lit [] l = [] /\ sounding false l = false.

(** From [st] to [st'] the log has grown by events that, started with
    the LEDs off and the speaker silent, end that way. *)
Definition settles (st st' : state) : Prop :=
  exists evs, out st' = out st ++ evs /\ quiescent evs.

(** The player presses the colours [cs] one after the other. *)
Definition replay (held : nat) (cs : list Z) : list sample :=
  flat_map (fun c => press c held) cs.

(** The order in which the mode wants the sequence entered. *)
Definition expected_order (st : state) : list Z :=
  if GameMode_eqb (currentMode st) REVERSE then rev (sequence st)
  else sequence st.

(** The colours expected at the steps [i], [i+1], ... ([n] of them). *)
Fixpoint expected_from (n : nat) (i : Z) (st : state) : list Z :=
  match n with
  | O => []
  | S n' => expected_at i st :: expected_from n' (i + 1) st
  end.

(** Whether [pin] reads LOW in the next sample of the script. *)
Definition next_low (pin : Z) (l : list sample) : bool :=
  match l with
  | [] => false
  | s :: _ => is_low s pin
  end.

(** The modes in the order of their buttons: yellow, green, red, blue. *)
Definition modes : list GameMode := [CLASSIC; SPEED; REVERSE; STEALTH].




(** ** Tactics *)

Ltac splits := repeat match goal with |- _ /\ _ => split end.

(** Unfolds the output calls on a state given by its fields; call by
    need, so that no state is computed twice. *)
Ltac run_output :=
  lazy beta iota zeta delta
    [gameOverScreen for_loop lcd_clear lcd_setCursor lcd_print lcd_print_num
     emit delay tone tone_offset noTone digitalWrite negb
     gameSequence Level lives isMuted currentMode eeprom pins rnd clock out].

(** Case analysis on the mute flag of a state given by its fields. *)
Ltac by_fields st :=
  destruct st as [gs lv li mu mo ee pi rn cl ou]; cbn in *.

(** * Properties *)

(** ** Machine integers in range *)

Lemma to_int_small z : -32768 <= z < 32768 -> to_int z = z.
Proof. intros H. unfold to_int. rewrite Z.mod_small; lia. Qed.

Lemma to_byte_small z : 0 <= z < 256 -> to_byte z = z.
Proof. intros H. unfold to_byte. now rewrite Z.mod_small. Qed.

Lemma to_byte_range z : 0 <= to_byte z < 256.
Proof. unfold to_byte. apply Z.mod_pos_bound. lia. Qed.

Lemma to_ulong_small z : 0 <= z < 4294967296 -> to_ulong z = z.
Proof. intros H. unfold to_ulong. now rewrite Z.mod_small. Qed.

Lemma GameMode_eqb_eq a b : GameMode_eqb a b = true <-> a = b.
Proof. destruct a, b; simpl; split; congruence. Qed.

(** ** What output leaves alone *)

Lemma frame_refl st : frame st st.
Proof. unfold frame. tauto. Qed.

Lemma frame_trans a b c : frame a b -> frame b c -> frame a c.
Proof. unfold frame. intuition congruence. Qed.

Lemma quiet_refl st : quiet st st.
Proof. split; [apply frame_refl | reflexivity]. Qed.

Lemma quiet_trans a b c : quiet a b -> quiet b c -> quiet a c.
Proof.
  intros [F1 P1] [F2 P2]. split; [eapply frame_trans; eassumption | congruence].
Qed.

Lemma quiet_frame a b : quiet a b -> frame a b.
Proof. now intros [F _]. Qed.

Lemma quiet_emit e st : quiet st (emit e st).
Proof. repeat split. Qed.

Lemma quiet_delay d st : quiet st (delay d st).
Proof. repeat split. Qed.

Lemma quiet_for_loop body :
  (forall i st, quiet st (body i st)) ->
  forall n i st, quiet st (for_loop n i body st).
Proof.
  intros Hb n. induction n as [|n IH]; intros i st; simpl.
  - apply quiet_refl.
  - eapply quiet_trans; [apply Hb | apply IH].
Qed.

Lemma quiet_lightLedAndPlayTone i st : quiet st (lightLedAndPlayTone i st).
Proof. by_fields st. destruct mu; repeat split. Qed.

Lemma quiet_playToneOnly i st : quiet st (playToneOnly i st).
Proof. by_fields st. destruct mu; repeat split. Qed.

Lemma quiet_echo a st : quiet st (echo a st).
Proof.
  unfold echo. destruct (GameMode_eqb _ _);
    [apply quiet_playToneOnly | apply quiet_lightLedAndPlayTone].
Qed.

Lemma quiet_playSequence_body speed i st :
  quiet st (playSequence_body speed i st).
Proof. by_fields st. destruct mo, mu; repeat split. Qed.

Lemma quiet_playSequence st : quiet st (playSequence st).
Proof. apply quiet_for_loop. intros. apply quiet_playSequence_body. Qed.

(** ** One cue (playSequence 142-153, playToneOnly, lightLedAndPlayTone) *)

Lemma lightLedAndPlayTone_out c st :
  out (lightLedAndPlayTone c st) = out st ++ cue CLASSIC (isMuted st) c.
Proof. by_fields st. destruct mu; cbn; now rewrite <- !app_assoc. Qed.

Lemma playToneOnly_out c st :
  out (playToneOnly c st) = out st ++ cue STEALTH (isMuted st) c.
Proof. by_fields st. destruct mu; cbn; now rewrite <- ?app_assoc. Qed.

Lemma cue_not_stealth mode muted c :
  mode <> STEALTH -> cue mode muted c = cue CLASSIC muted c.
Proof. destruct mode, muted; intros; try reflexivity; congruence. Qed.

Lemma echo_out c st :
  out (echo c st) = out st ++ cue (currentMode st) (isMuted st) c.
Proof.
  unfold echo. destruct (currentMode st) eqn:E; cbn;
    rewrite ?playToneOnly_out, ?lightLedAndPlayTone_out; reflexivity.
Qed.

Lemma playSequence_body_out speed i st :
  out (playSequence_body speed i st) =
  out st ++ cue (currentMode st) (isMuted st) (gameSequence_at i st)
         ++ [Delay speed].
Proof.
  by_fields st. destruct mo, mu; cbn; now rewrite <- ?app_assoc.
Qed.

(** C9 (as amended).  One step is played as [cue]: in Stealth mode the
    tone alone for 300 ms when unmuted and a silent wait of the same
    300 ms when muted; in every other mode the light for 300 ms, with the
    tone when unmuted and without it when muted.  This holds for the step
    of playSequence, for playToneOnly and lightLedAndPlayTone, and for
    the echo of an accepted press. *)
Theorem cue_by_mode (st : state) (speed i c : Z) (mode : GameMode)
  (muted : bool) :
  out (playSequence_body speed i st) =
    out st ++ cue (currentMode st) (isMuted st) (gameSequence_at i st)
           ++ [Delay speed] /\
  out (playToneOnly c st) = out st ++ cue STEALTH (isMuted st) c /\
  out (lightLedAndPlayTone c st) = out st ++ cue CLASSIC (isMuted st) c /\
  out (echo c st) = out st ++ cue (currentMode st) (isMuted st) c /\
  cue STEALTH false c =
    [Tone speaker (gameTones_at c) 0; Delay 300; NoTone speaker] /\
  cue STEALTH true c = [Delay 300] /\
  duration (cue mode muted c) = 300 /\
  existsb is_light (cue mode muted c) = negb (GameMode_eqb mode STEALTH) /\
  existsb is_tone (cue mode muted c) = negb muted.
Proof.
  split; [apply playSequence_body_out |].
  split; [apply playToneOnly_out |].
  split; [apply lightLedAndPlayTone_out |].
  split; [apply echo_out |].
  destruct mode, muted; repeat split.
Qed.

(** C9, the claim as written fails: in Classic mode with the sound muted
    a step lights the LED and plays no tone. *)
Lemma muted_classic_step_has_no_tone :
  out (lightLedAndPlayTone 2 (power_on CLASSIC true ∅ [] [])) =
    [DigitalWrite 6 HIGH; Delay 300; DigitalWrite 6 LOW] /\
  existsb is_tone
    (out (playSequence_body 390 0 (power_on CLASSIC true ∅ [] []))) = false.
Proof. split; reflexivity. Qed.

(** ** playSequence *)

Lemma gameSequence_at_lookup i st :
  0 <= i -> (Z.to_nat i < length (gameSequence st))%nat ->
  gameSequence st !! Z.to_nat i = Some (gameSequence_at i st).
Proof.
  intros Hi Hlen. unfold gameSequence_at.
  destruct (nth_lookup_or_length (gameSequence st) (Z.to_nat i) 0); [done | lia].
Qed.

Lemma playSequence_loop_out speed n : forall i st,
  0 <= i -> (Z.to_nat i + n <= length (gameSequence st))%nat ->
  out (for_loop n i (playSequence_body speed) st) =
  out st ++ flat_map (fun c => cue (currentMode st) (isMuted st) c
                                 ++ [Delay speed])
                     (take n (drop (Z.to_nat i) (gameSequence st))).
Proof.
  induction n as [|n IH]; intros i st Hi Hlen; simpl.
  - now rewrite app_nil_r.
  - pose proof (quiet_playSequence_body speed i st) as [(Hg & _ & _ & Hm & Ho & _) _].
    rewrite IH by (rewrite ?Hg; lia).
    rewrite playSequence_body_out, Hg, Hm, Ho.
    rewrite (drop_S _ (gameSequence_at i st) (Z.to_nat i))
      by (apply gameSequence_at_lookup; lia).
    simpl. replace (Z.to_nat (i + 1)) with (S (Z.to_nat i)) by lia.
    now rewrite <- !app_assoc.
Qed.

Lemma speed_formula L :
  0 <= L <= 255 ->
  to_int (Z.max 100 (to_int (400 - to_int (L * 10)))) =
  Z.max 100 (400 - L * 10).
Proof.
  intros H. rewrite (to_int_small (L * 10)) by lia.
  rewrite (to_int_small (400 - L * 10)) by lia.
  apply to_int_small. lia.
Qed.

(** C5.  At level L playSequence plays L cues, one for each element of
    the sequence in forward order, and waits max(100, 400 - L*10) ms
    after each of them.  (A cue is what the mode and the mute flag make
    of one step, see [cue]; in muted Stealth mode it is the silent
    300 ms.) *)
Theorem playSequence_cues (st : state) :
  0 <= Level st <= 100 -> length (gameSequence st) = 100%nat ->
  out (playSequence st) =
    out st ++ flat_map (fun c => cue (currentMode st) (isMuted st) c
                          ++ [Delay (Z.max 100 (400 - Level st * 10))])
                       (sequence st) /\
  length (sequence st) = Z.to_nat (Level st).
Proof.
  intros HL Hlen. unfold playSequence, sequence. split.
  - rewrite speed_formula by lia.
    rewrite playSequence_loop_out by (simpl; lia). reflexivity.
  - rewrite length_take. lia.
Qed.

Lemma playSequence_cues_witness :
  out (playSequence (playing STEALTH false [3; 1] [])) =
  [Tone 10 NOTE_G5 0; Delay 300; NoTone 10; Delay 380;
   Tone 10 NOTE_C4 0; Delay 300; NoTone 10; Delay 380].
Proof.
  exact (proj1 (playSequence_cues (playing STEALTH false [3; 1] [])
                  ltac:(simpl; lia) eq_refl)).
Defined.

(** ** The expected colour *)

(** C1.  At step i of the verification at level L, 0 <= i < L, the
    expected colour is element L-1-i of the sequence in Reverse mode and
    element i in every other mode. *)
Theorem expected_index (st : state) (i : Z) :
  1 <= Level st <= 100 -> length (gameSequence st) = 100%nat ->
  0 <= i < Level st ->
  sequence st !! Z.to_nat (if GameMode_eqb (currentMode st) REVERSE
                           then Level st - 1 - i else i)
  = Some (expected_at i st).
Proof.
  intros HL Hlen Hi. unfold expected_at, sequence.
  destruct (GameMode_eqb (currentMode st) REVERSE).
  - rewrite (to_int_small (Level st - 1)) by lia.
    rewrite (to_int_small (Level st - 1 - i)) by lia.
    rewrite lookup_take_lt by lia. apply gameSequence_at_lookup; lia.
  - rewrite lookup_take_lt by lia. apply gameSequence_at_lookup; lia.
Qed.

Lemma expected_index_witness :
  sequence (playing REVERSE false [3; 1] []) !! 1%nat = Some 1 /\
  expected_at 0 (playing REVERSE false [3; 1] []) = 1.
Proof.
  split; [| reflexivity].
  exact (expected_index (playing REVERSE false [3; 1] []) 0
           ltac:(simpl; lia) eq_refl ltac:(simpl; lia)).
Defined.

(** ** The high score *)

Lemma EEPROM_read_write addr val st :
  EEPROM_read addr (EEPROM_write addr val st) = val.
Proof. unfold EEPROM_read, EEPROM_write. cbn. now rewrite lookup_insert_eq. Qed.

Lemma updateHighScore_written s st :
  EEPROM_read highScoreAddress st = 255 \/ EEPROM_read highScoreAddress st < s ->
  updateHighScore s st = EEPROM_write highScoreAddress s st.
Proof.
  intros H. unfold updateHighScore.
  destruct (EEPROM_read highScoreAddress st =? 255) eqn:E1; [reflexivity |].
  destruct (s >? EEPROM_read highScoreAddress st) eqn:E2; [reflexivity |].
  simpl. lia.
Qed.

Lemma updateHighScore_kept s st :
  ~ (EEPROM_read highScoreAddress st = 255 \/
     EEPROM_read highScoreAddress st < s) ->
  updateHighScore s st = st.
Proof.
  intros H. unfold updateHighScore.
  destruct (EEPROM_read highScoreAddress st =? 255) eqn:E1; [lia |].
  destruct (s >? EEPROM_read highScoreAddress st) eqn:E2; [lia | reflexivity].
Qed.

Lemma updateHighScore_out s st :
  out (updateHighScore s st) =
  out st ++ (if (EEPROM_read highScoreAddress st =? 255)
                || (s >? EEPROM_read highScoreAddress st)
             then [EepromWrite highScoreAddress s] else []).
Proof.
  unfold updateHighScore.
  destruct ((_ =? 255) || _); [reflexivity | now rewrite app_nil_r].
Qed.

Lemma updateHighScore_real s st :
  0 <= s < 255 -> EEPROM_read highScoreAddress st <> 255 ->
  EEPROM_read highScoreAddress st
    <= EEPROM_read highScoreAddress (updateHighScore s st) /\
  (EEPROM_read highScoreAddress st < 255 ->
   EEPROM_read highScoreAddress (updateHighScore s st) < 255).
Proof.
  intros Hs Hh.
  destruct (Z_lt_dec (EEPROM_read highScoreAddress st) s) as [Hlt | Hge].
  - rewrite updateHighScore_written by auto. rewrite EEPROM_read_write. lia.
  - rewrite updateHighScore_kept by lia. lia.
Qed.

Lemma EEPROM_read_eeprom addr a b :
  eeprom a = eeprom b -> EEPROM_read addr a = EEPROM_read addr b.
Proof. unfold EEPROM_read. now intros ->. Qed.

Lemma updateHighScore_read s st :
  EEPROM_read highScoreAddress (updateHighScore s st) =
  if (EEPROM_read highScoreAddress st =? 255)
     || (s >? EEPROM_read highScoreAddress st)
  then s else EEPROM_read highScoreAddress st.
Proof.
  unfold updateHighScore.
  destruct (_ || _); [apply EEPROM_read_write | reflexivity].
Qed.

Lemma updateHighScore_pins s st : pins (updateHighScore s st) = pins st.
Proof. unfold updateHighScore. now destruct (_ || _). Qed.

(** C4.  updateHighScore(s) writes s to the EEPROM exactly when the
    stored byte h is 255 or s > h, and changes nothing otherwise; so a
    stored real score (below 255) never decreases, whatever real scores
    are offered afterwards. *)
Theorem updateHighScore_monotone (s : Z) (st : state) :
  (EEPROM_read highScoreAddress st = 255 \/
   EEPROM_read highScoreAddress st < s <->
   out (updateHighScore s st) = out st ++ [EepromWrite highScoreAddress s] /\
   EEPROM_read highScoreAddress (updateHighScore s st) = s) /\
  (~ (EEPROM_read highScoreAddress st = 255 \/
      EEPROM_read highScoreAddress st < s) <->
   updateHighScore s st = st) /\
  forall l : list Z,
    0 <= EEPROM_read highScoreAddress st < 255 ->
    Forall (fun c => 0 <= c < 255) l ->
    EEPROM_read highScoreAddress st
      <= EEPROM_read highScoreAddress (updates l st) < 255.
Proof.
  split; [| split].
  - split.
    + intros H. rewrite updateHighScore_written by exact H.
      split; [reflexivity | apply EEPROM_read_write].
    + intros [Ho _]. rewrite updateHighScore_out in Ho.
      apply app_inv_head in Ho.
      destruct (EEPROM_read highScoreAddress st =? 255) eqn:E1; [lia |].
      destruct (s >? EEPROM_read highScoreAddress st) eqn:E2; [lia |].
      discriminate Ho.
  - split.
    + apply updateHighScore_kept.
    + intros Heq H. apply (f_equal out) in Heq.
      rewrite updateHighScore_written in Heq by exact H. cbn in Heq.
      apply (f_equal (@length event)) in Heq. rewrite length_app in Heq.
      simpl in Heq. lia.
  - intros l. unfold updates. revert st.
    induction l as [|c l IH]; intros st Hh Hl; simpl.
    + lia.
    + inversion Hl as [|? ? Hc Hl']; subst.
      destruct (updateHighScore_real c st Hc ltac:(lia)) as [H1 H2].
      specialize (IH (updateHighScore c st) ltac:(lia) Hl').
      lia.
Qed.

Lemma updateHighScore_monotone_witness :
  EEPROM_read highScoreAddress
    (updates [3; 7; 5; 0] (playing CLASSIC false [] [])) = 7 /\
  5 <= EEPROM_read highScoreAddress
         (updates [3; 7; 6]
            (updateHighScore 5 (playing CLASSIC false [] []))) < 255.
Proof.
  split; [reflexivity |].
  apply (proj2 (proj2 (updateHighScore_monotone 0
                         (updateHighScore 5 (playing CLASSIC false [] []))))).
  - vm_compute. split; [discriminate | reflexivity].
  - repeat (constructor; [lia |]). constructor.
Defined.

(** ** Growing the sequence *)

Lemma random_range lo hi st :
  lo < hi -> lo <= fst (random lo hi st) < hi.
Proof.
  intros H. unfold random. destruct (rnd st) as [|x r]; simpl; [lia |].
  pose proof (Z.mod_pos_bound x (hi - lo)). lia.
Qed.

(** What extend does to the array and to Level. *)
Lemma extend_fields st :
  0 <= Level st <= 99 ->
  gameSequence (extend st) =
    <[Z.to_nat (Level st) := fst (random 0 4 st)]> (gameSequence st) /\
  Level (extend st) = Z.min (Level st + 1) 99 /\
  lives (extend st) = lives st /\ isMuted (extend st) = isMuted st /\
  currentMode (extend st) = currentMode st /\ eeprom (extend st) = eeprom st /\
  pins (extend st) = pins st /\ out (extend st) = out st /\
  clock (extend st) = clock st.
Proof.
  intros HL. pose proof (random_range 0 4 st ltac:(lia)) as Hr.
  unfold extend. unfold random in *. by_fields st.
  destruct rn as [|x rn]; cbn in *;
  rewrite (to_byte_small (lv + 1)) by lia;
  rewrite to_byte_small by lia;
  (destruct (Z.geb_spec (lv + 1) MAX_GAME_LENGTH) as [Hge | Hlt]; unfold MAX_GAME_LENGTH in *; cbn;
  repeat split; lia).
Qed.

Lemma extend_sequence st :
  length (gameSequence st) = 100%nat -> 0 <= Level st <= 99 ->
  length (gameSequence (extend st)) = 100%nat /\
  Level st <= Level (extend st) <= 99 /\
  (Level st < 99 ->
   sequence (extend st) = sequence st ++ [fst (random 0 4 st)]) /\
  (Level st = 99 ->
   Level (extend st) = 99 /\ sequence (extend st) = sequence st /\
   forall j, j <> 99%nat ->
     gameSequence (extend st) !! j = gameSequence st !! j).
Proof.
  intros Hlen HL. destruct (extend_fields st HL) as (Hg & Hl & _).
  unfold sequence. rewrite Hg, Hl, length_insert.
  split; [assumption |]. split; [lia |]. split.
  - intros Hlt. replace (Z.to_nat (Z.min (Level st + 1) 99))
      with (S (Z.to_nat (Level st))) by lia.
    rewrite (take_S_r _ _ (fst (random 0 4 st)))
      by (apply list_lookup_insert_eq; lia).
    now rewrite take_insert_ge by lia.
  - intros Heq. split; [lia |]. split.
    + replace (Z.to_nat (Z.min (Level st + 1) 99))
        with (Z.to_nat (Level st)) by lia.
      now rewrite take_insert_ge by lia.
    + intros j Hj. apply list_lookup_insert_ne. lia.
Qed.

(** What extend does to the generator: it draws one raw value, whatever
    Level is. *)
Lemma extend_rnd st : rnd (extend st) = drop 1 (rnd st).
Proof.
  unfold extend, random. destruct st as [gs lv li mu mo ee pi rn cl ou].
  destruct rn as [|x rn]; cbn;
    match goal with |- context [if ?c then _ else _] => destruct c end;
    reflexivity.
Qed.

Lemma random_head x r st :
  rnd st = x :: r -> fst (random 0 4 st) = x mod 4.
Proof. intros H. unfold random. rewrite H. reflexivity. Qed.

(** C3 (as amended).  Level never exceeds MAX_GAME_LENGTH - 1 = 99 and
    the sequence (the first Level cells) stays shorter than the maximum;
    whatever is in the sequence stays where it is under any number of
    later extends; and once Level is 99 every further extend leaves Level
    and the sequence as they are.  Such an extend is not a no-op: like
    every extend it draws the next value of the generator, and it stores
    the colour drawn in gameSequence[99], a cell that is not part of the
    sequence; no other cell changes. *)
Theorem extend_clamped (st : state) (n : nat) :
  length (gameSequence st) = 100%nat -> 0 <= Level st <= 99 ->
  length (gameSequence (Nat.iter n extend st)) = 100%nat /\
  Level st <= Level (Nat.iter n extend st) <= MAX_GAME_LENGTH - 1 /\
  (length (sequence (Nat.iter n extend st)) < Z.to_nat MAX_GAME_LENGTH)%nat /\
  sequence st `prefix_of` sequence (Nat.iter n extend st) /\
  (Level st = MAX_GAME_LENGTH - 1 ->
   Level (Nat.iter n extend st) = Level st /\
   sequence (Nat.iter n extend st) = sequence st /\
   forall j, j <> 99%nat ->
     gameSequence (Nat.iter n extend st) !! j = gameSequence st !! j) /\
  rnd (Nat.iter n extend st) = drop n (rnd st) /\
  (forall x,
     Level (Nat.iter n extend st) = MAX_GAME_LENGTH - 1 ->
     rnd st !! n = Some x ->
     gameSequence (Nat.iter (S n) extend st)
       = <[99%nat := x mod 4]> (gameSequence (Nat.iter n extend st)) /\
     gameSequence (Nat.iter (S n) extend st) !! 99%nat = Some (x mod 4)).
Proof.
  intros Hlen HL. unfold MAX_GAME_LENGTH.
  assert (Hrnd : forall m, rnd (Nat.iter m extend st) = drop m (rnd st)).
  { induction m as [|m IHm]; simpl; [now rewrite drop_0 |].
    rewrite extend_rnd, IHm, drop_drop. f_equal. lia. }
  assert (Hmain :
    length (gameSequence (Nat.iter n extend st)) = 100%nat /\
    Level st <= Level (Nat.iter n extend st) <= 100 - 1 /\
    (length (sequence (Nat.iter n extend st)) < Z.to_nat 100)%nat /\
    sequence st `prefix_of` sequence (Nat.iter n extend st) /\
    (Level st = 100 - 1 ->
     Level (Nat.iter n extend st) = Level st /\
     sequence (Nat.iter n extend st) = sequence st /\
     forall j, j <> 99%nat ->
       gameSequence (Nat.iter n extend st) !! j = gameSequence st !! j)).
  { induction n as [|n (IHlen & IHL & IHs & IHp & IHc)]; simpl.
    - split; [assumption |]. split; [lia |].
      split; [unfold sequence; rewrite length_take; lia |].
      split; [reflexivity |]. intros _. repeat split.
    - destruct (extend_sequence (Nat.iter n extend st) IHlen ltac:(lia))
        as (Elen & EL & Eapp & Eclamp).
      split; [assumption |]. split; [lia |].
      split; [unfold sequence; rewrite length_take; lia |].
      split.
      + destruct (Z_lt_dec (Level (Nat.iter n extend st)) 99) as [Hlt | Hge].
        * rewrite Eapp by assumption. now apply prefix_app_r.
        * destruct Eclamp as (_ & -> & _); [lia | assumption].
      + intros H99. destruct (IHc H99) as (I1 & I2 & I3).
        destruct Eclamp as (E1 & E2 & E3); [lia |].
        split; [lia |]. split; [congruence |].
        intros j Hj. rewrite E3 by assumption. now apply I3. }
  destruct Hmain as (Mlen & ML & Ms & Mp & Mc).
  split; [exact Mlen |]. split; [exact ML |]. split; [exact Ms |].
  split; [exact Mp |]. split; [exact Mc |]. split; [apply Hrnd |].
  intros x Hcap Hx.
  assert (Hg : gameSequence (Nat.iter (S n) extend st)
               = <[99%nat := x mod 4]> (gameSequence (Nat.iter n extend st))).
  { change (Nat.iter (S n) extend st) with (extend (Nat.iter n extend st)).
    destruct (extend_fields (Nat.iter n extend st) ltac:(lia)) as (Eg & _).
    rewrite Eg, Hcap.
    rewrite (random_head x (drop (S n) (rnd st)))
      by (rewrite Hrnd; now apply drop_S).
    reflexivity. }
  split; [exact Hg |].
  rewrite Hg. apply list_lookup_insert_eq. lia.
Qed.

(** C3, the claim as written fails: with Level clamped at 99, extend is
    not a no-op.  The hundredth extend has written colour 1 to
    gameSequence[99]; the next one overwrites it with colour 2. *)
Lemma extend_at_cap_overwrites :
  Level at_cap = 99 /\
  gameSequence at_cap !! 99%nat = Some 1 /\
  Level (extend at_cap) = 99 /\
  gameSequence (extend at_cap) !! 99%nat = Some 2 /\
  extend at_cap <> at_cap.
Proof.
  split; [reflexivity |]. split; [reflexivity |].
  split; [reflexivity |]. split; [reflexivity |].
  intros H. apply (f_equal (fun s => gameSequence s !! 99%nat)) in H.
  vm_compute in H. discriminate H.
Qed.

Lemma extend_clamped_witness :
  sequence (set_Level 98 (power_on CLASSIC false ∅ [] [1; 2; 7]))
    `prefix_of`
  sequence (Nat.iter 2 extend
              (set_Level 98 (power_on CLASSIC false ∅ [] [1; 2; 7]))) /\
  sequence (Nat.iter 2 extend
              (set_Level 98 (power_on CLASSIC false ∅ [] [1; 2; 7])))
  = replicate 98 0 ++ [1] /\
  gameSequence (Nat.iter 2 extend
                  (set_Level 98 (power_on CLASSIC false ∅ [] [1; 2; 7])))
    !! 99%nat = Some 2 /\
  gameSequence (Nat.iter 3 extend
                  (set_Level 98 (power_on CLASSIC false ∅ [] [1; 2; 7])))
    !! 99%nat = Some (7 mod 4).
Proof.
  pose proof (extend_clamped
    (set_Level 98 (power_on CLASSIC false ∅ [] [1; 2; 7])) 2
    eq_refl ltac:(simpl; lia)) as (_ & _ & _ & Hp & _ & _ & Hcap).
  split; [exact Hp |]. split; [reflexivity |]. split; [reflexivity |].
  exact (proj2 (Hcap 7 eq_refl eq_refl)).
Defined.

(** ** One button of the scan *)

Lemma elapsed_delay c d start :
  to_ulong (to_ulong (c + d) - start) = to_ulong (to_ulong (c - start) + d).
Proof.
  unfold to_ulong. rewrite Zminus_mod_idemp_l, Zplus_mod_idemp_l.
  f_equal. lia.
Qed.

Lemma elapsed_same c start :
  to_ulong (c - start) = to_ulong (to_ulong (c - start) + 0).
Proof. unfold to_ulong. now rewrite Z.add_0_r, Z.mod_mod. Qed.

Lemma buttonPins_at_In i : In (buttonPins_at i) buttonPins.
Proof.
  unfold buttonPins_at, buttonPins.
  destruct (Z.to_nat i) as [|[|[|[|[|n]]]]]; simpl; tauto.
Qed.

Lemma bounce_only_tail s l : bounce_only (s :: l) = true -> bounce_only l = true.
Proof.
  destruct l as [|s2 l]; [reflexivity |]. cbn [bounce_only].
  intros H. now apply andb_prop in H.
Qed.

Lemma bounce_only_head s1 s2 l i :
  bounce_only (s1 :: s2 :: l) = true ->
  is_low s1 (buttonPins_at i) = true -> is_low s2 (buttonPins_at i) = false.
Proof.
  cbn [bounce_only]. intros H H1. apply andb_prop in H as [H _].
  rewrite forallb_forall in H. specialize (H _ (buttonPins_at_In i)).
  rewrite H1 in H. simpl in H. now destruct (is_low s2 _).
Qed.

Lemma release_script_suffix pin l : release_script pin l `suffix_of` l.
Proof.
  induction l as [|s l IH]; simpl; [reflexivity |].
  destruct (is_low s pin); [now apply suffix_cons_r | apply suffix_cons_r; reflexivity].
Qed.

Lemma release_script_held pin held rel rest :
  Forall (fun s => is_low s pin = true) held -> is_low rel pin = false ->
  release_script pin (held ++ rel :: rest) = rest.
Proof.
  intros Hh Hr. induction Hh as [|s held Hs _ IH]; simpl.
  - now rewrite Hr.
  - now rewrite Hs.
Qed.

(** Everything the callers need to know about [try_button]. *)
Lemma try_button_spec i st hit st' :
  try_button i st = (hit, st') ->
  frame st st' /\
  pins st' `suffix_of` pins st /\
  (exists d, (d = 0 \/ d = 20) /\
     out st' = out st ++ (if d =? 0 then [] else [Delay 20]) /\
     forall start, to_ulong (clock st' - start)
                   = to_ulong (to_ulong (clock st - start) + d)) /\
  (hit = true ->
   exists s1 s2 r,
     pins st = s1 :: s2 :: r /\
     is_low s1 (buttonPins_at i) = true /\ is_low s2 (buttonPins_at i) = true /\
     st' = set_pins (release_script (buttonPins_at i) r) (delay 20 st)) /\
  (hit = false -> pins st <> [] -> (length (pins st') < length (pins st))%nat) /\
  (hit = false -> pins st = [] -> st' = st) /\
  (bounce_only (pins st) = true -> hit = false /\ bounce_only (pins st') = true).
Proof.
  unfold try_button, digitalRead, wait_release. by_fields st.
  destruct pi as [|s1 rest]; cbn.
  - intros [= <- <-]. cbn. splits; try done.
    exists 0. split; [auto |]. split; [now rewrite app_nil_r |].
    intros. apply elapsed_same.
  - destruct (is_low s1 (buttonPins_at i)) eqn:E1; cbn.
    + destruct rest as [|s2 rest]; cbn.
      * intros [= <- <-]. cbn. splits; try done.
        -- now apply suffix_cons_r.
        -- exists 20. split; [auto |]. split; [reflexivity |].
           intros. apply elapsed_delay.
        -- intros. lia.
      * destruct (is_low s2 (buttonPins_at i)) eqn:E2; cbn.
        -- intros [= <- <-]. cbn. splits; try done.
           ++ do 2 apply suffix_cons_r. apply release_script_suffix.
           ++ exists 20. split; [auto |]. split; [reflexivity |].
              intros. apply elapsed_delay.
           ++ intros _. exists s1, s2, rest. splits; done.
           ++ intros Hb. pose proof (bounce_only_head _ _ _ i Hb E1). congruence.
        -- intros [= <- <-]. cbn. splits; try done.
           ++ do 2 apply suffix_cons_r. reflexivity.
           ++ exists 20. split; [auto |]. split; [reflexivity |].
              intros. apply elapsed_delay.
           ++ intros. lia.
           ++ intros Hb. split; [done |]. now do 2 apply bounce_only_tail in Hb.
    + intros [= <- <-]. cbn. splits; try done.
      * apply suffix_cons_r. reflexivity.
      * exists 0. split; [auto |]. split; [now rewrite app_nil_r |].
        intros. apply elapsed_same.
      * intros. lia.
      * intros Hb. split; [done |]. now apply bounce_only_tail in Hb.
Qed.

(** ** The scan over the four buttons *)

Lemma to_ulong_add_l a b : to_ulong (to_ulong a + b) = to_ulong (a + b).
Proof. unfold to_ulong. now rewrite Zplus_mod_idemp_l. Qed.

Lemma closed_twice_suffix j l l' :
  closed_twice j l' -> l' `suffix_of` l -> closed_twice j l.
Proof.
  intros (pre & s1 & s2 & post & -> & H1 & H2) [k ->].
  exists (k ++ pre), s1, s2, post. now rewrite <- app_assoc.
Qed.

Lemma poll_buttons_S n i st :
  poll_buttons (S n) i st =
  let (hit, st') := try_button i st in
  if hit then (Some i, st') else poll_buttons n (i + 1) st'.
Proof. reflexivity. Qed.

Lemma poll_buttons_spec n : forall i st r st',
  poll_buttons n i st = (r, st') ->
  frame st st' /\
  pins st' `suffix_of` pins st /\
  (exists d, 0 <= d <= 20 * Z.of_nat n /\
     forall start, to_ulong (clock st' - start)
                   = to_ulong (to_ulong (clock st - start) + d)) /\
  (forall j, r = Some j -> i <= j < i + Z.of_nat n /\ closed_twice j (pins st)) /\
  (r = None -> (0 < n)%nat -> pins st <> [] ->
   (length (pins st') < length (pins st))%nat) /\
  (r = None -> pins st = [] -> st' = st) /\
  (bounce_only (pins st) = true -> r = None /\ bounce_only (pins st') = true).
Proof.
  induction n as [|n IH]; intros i st r st'.
  - intros [= <- <-]. splits; try done.
    + exists 0. split; [lia |]. intros. apply elapsed_same.
    + intros. lia.
  - rewrite poll_buttons_S.
    destruct (try_button i st) as [hit st1] eqn:Et.
    destruct (try_button_spec _ _ _ _ Et)
      as (Hf & Hs & (d1 & Hd1 & _ & Hc1) & Hhit & Hlen & Hnil & Hb).
    destruct hit.
    + intros [= <- <-]. splits; try done.
      * exists d1. split; [lia | exact Hc1].
      * intros j [= <-]. split; [lia |].
        destruct (Hhit eq_refl) as (s1 & s2 & rest & Hp & H1 & H2 & _).
        exists [], s1, s2, rest. done.
      * intros Hbo. destruct (Hb Hbo). done.
    + intros Hp. destruct (IH _ _ _ _ Hp)
        as (Hf' & Hs' & (d2 & Hd2 & Hc2) & Hj & Hlen' & Hnil' & Hb').
      splits.
      * eapply frame_trans; eassumption.
      * etrans; eassumption.
      * exists (d1 + d2). split; [lia |]. intros start.
        rewrite Hc2, Hc1, to_ulong_add_l. f_equal. lia.
      * intros j Hr. destruct (Hj j Hr) as [Hrange Hct]. split; [lia |].
        eapply closed_twice_suffix; eassumption.
      * intros Hr _ Hne. specialize (Hlen eq_refl Hne).
        apply suffix_length in Hs'. lia.
      * intros Hr He. pose proof (Hnil eq_refl He) as E1. subst st1.
        exact (Hnil' Hr He).
      * intros Hbo. destruct (Hb Hbo) as [_ Hbo1]. now apply Hb'.
Qed.

(** ** readButtonsDebounced *)

Lemma readButtonsDebounced_fuel_spec fuel : forall st j st',
  readButtonsDebounced_fuel fuel st = Some (j, st') ->
  0 <= j <= 3 /\ frame st st' /\ closed_twice j (pins st) /\
  pins st' `suffix_of` pins st.
Proof.
  induction fuel as [|fuel IH]; intros st j st'; simpl; [discriminate |].
  destruct (poll_buttons 4 0 st) as [[k|] st1] eqn:Ep;
    destruct (poll_buttons_spec _ _ _ _ _ Ep) as (Hf & Hs & _ & Hj & _).
  - intros [= <- <-]. destruct (Hj k eq_refl). splits; try done; lia.
  - intros Hr. destruct (IH _ _ _ Hr) as (Hr1 & Hf1 & Hc1 & Hs1).
    split; [exact Hr1 |]. splits.
    + eapply frame_trans; [exact Hf |].
      eapply frame_trans; [apply quiet_frame, quiet_delay | exact Hf1].
    + eapply closed_twice_suffix; eassumption.
    + etrans; eassumption.
Qed.

Lemma readButtonsDebounced_fuel_mono fuel : forall fuel' st r,
  readButtonsDebounced_fuel fuel st = Some r -> (fuel <= fuel')%nat ->
  readButtonsDebounced_fuel fuel' st = Some r.
Proof.
  induction fuel as [|fuel IH]; intros fuel' st r; simpl; [discriminate |].
  intros Hr Hle. destruct fuel' as [|fuel']; [lia |]. simpl.
  destruct (poll_buttons 4 0 st) as [[k|] st1]; [assumption |].
  apply IH; [assumption | lia].
Qed.

(** With the script used up the reader waits for ever. *)
Lemma readButtonsDebounced_fuel_idle fuel : forall st,
  pins st = [] -> readButtonsDebounced_fuel fuel st = None.
Proof.
  induction fuel as [|fuel IH]; intros st Hp; simpl; [reflexivity |].
  destruct (poll_buttons 4 0 st) as [[k|] st1] eqn:Ep;
    destruct (poll_buttons_spec _ _ _ _ _ Ep) as (_ & _ & _ & Hj & _ & Hnil & _).
  - destruct (Hj k eq_refl) as [_ (pre & s1 & s2 & post & Hl & _)].
    rewrite Hp in Hl. now destruct pre.
  - apply IH. rewrite (Hnil eq_refl Hp). exact Hp.
Qed.

(** The fuel of [readButtonsDebounced] is enough: if any number of
    rounds registers a press, so does that one. *)
Lemma readButtonsDebounced_adequate fuel : forall st r,
  readButtonsDebounced_fuel fuel st = Some r -> readButtonsDebounced st = Some r.
Proof.
  unfold readButtonsDebounced.
  induction fuel as [|fuel IH]; intros st r; [discriminate |].
  cbn [readButtonsDebounced_fuel].
  destruct (poll_buttons 4 0 st) as [[k|] st1] eqn:Ep; [done |].
  intros Hr. destruct (pins st) as [|s l] eqn:Hp.
  - rewrite readButtonsDebounced_fuel_idle in Hr; [discriminate |].
    destruct (poll_buttons_spec _ _ _ _ _ Ep) as (_ & _ & _ & _ & _ & Hnil & _).
    now rewrite (Hnil eq_refl Hp).
  - destruct (poll_buttons_spec _ _ _ _ _ Ep) as (_ & _ & _ & _ & Hlen & _).
    specialize (Hlen eq_refl ltac:(lia) ltac:(congruence)).
    rewrite Hp in Hlen. simpl in Hlen.
    eapply readButtonsDebounced_fuel_mono; [apply (IH _ _ Hr) |].
    cbn [pins delay length]. lia.
Qed.

Lemma readButtonsDebounced_blocks st :
  readButtonsDebounced st = None <->
  forall fuel, readButtonsDebounced_fuel fuel st = None.
Proof.
  split.
  - intros Hn fuel. destruct (readButtonsDebounced_fuel fuel st) eqn:E; [| done].
    apply readButtonsDebounced_adequate in E. congruence.
  - intros H. apply H.
Qed.

Lemma readButtonsDebounced_spec st j st' :
  readButtonsDebounced st = Some (j, st') ->
  0 <= j <= 3 /\ frame st st' /\ closed_twice j (pins st) /\
  pins st' `suffix_of` pins st.
Proof. apply readButtonsDebounced_fuel_spec. Qed.

(** A script of nothing but bounces never registers anything. *)
Lemma readButtonsDebounced_bounce fuel : forall st,
  bounce_only (pins st) = true -> readButtonsDebounced_fuel fuel st = None.
Proof.
  induction fuel as [|fuel IH]; intros st Hb; simpl; [reflexivity |].
  destruct (poll_buttons 4 0 st) as [r st1] eqn:Ep.
  destruct (poll_buttons_spec _ _ _ _ _ Ep) as (_ & _ & _ & _ & _ & _ & Hbo).
  destruct (Hbo Hb) as [-> Hb1]. now apply IH.
Qed.

(** ** A press that is held *)

Lemma set_pins_set_pins a b st : set_pins a (set_pins b st) = set_pins a st.
Proof. reflexivity. Qed.

Lemma set_pins_delay a d b st :
  set_pins a (delay d (set_pins b st)) = set_pins a (delay d st).
Proof. reflexivity. Qed.

Lemma set_pins_same st : set_pins (pins st) st = st.
Proof. now destruct st. Qed.

Lemma try_button_open i st s rest :
  pins st = s :: rest -> is_low s (buttonPins_at i) = false ->
  try_button i st = (false, set_pins rest st).
Proof.
  intros Hp Hs. unfold try_button, digitalRead. rewrite Hp, Hs. reflexivity.
Qed.

Lemma try_button_held i st s1 s2 rest :
  pins st = s1 :: s2 :: rest ->
  is_low s1 (buttonPins_at i) = true -> is_low s2 (buttonPins_at i) = true ->
  try_button i st =
  (true, set_pins (release_script (buttonPins_at i) rest) (delay 20 st)).
Proof.
  intros Hp H1 H2. unfold try_button, digitalRead. rewrite Hp, H1. cbn.
  rewrite H2. reflexivity.
Qed.

(** The buttons polled before the one that is pressed. *)
Lemma poll_buttons_passes pre : forall n i st tail,
  passes i pre -> pins st = pre ++ tail ->
  poll_buttons (length pre + n) i st =
  poll_buttons n (i + Z.of_nat (length pre)) (set_pins tail st).
Proof.
  induction pre as [|s pre IH]; intros n i st tail Hpass Hp; simpl in *.
  - rewrite Z.add_0_r. subst tail. now rewrite set_pins_same.
  - destruct Hpass as [Hs Hpass]. rewrite poll_buttons_S.
    rewrite (try_button_open i st s (pre ++ tail) Hp Hs).
    rewrite (IH n (i + 1) (set_pins (pre ++ tail) st) tail Hpass eq_refl).
    rewrite set_pins_set_pins. f_equal. lia.
Qed.

Lemma poll_buttons_hold st i pre s1 s2 held rel rest :
  0 <= i <= 3 -> length pre = Z.to_nat i -> passes 0 pre ->
  is_low s1 (buttonPins_at i) = true -> is_low s2 (buttonPins_at i) = true ->
  Forall (fun s => is_low s (buttonPins_at i) = true) held ->
  is_low rel (buttonPins_at i) = false ->
  pins st = pre ++ s1 :: s2 :: held ++ rel :: rest ->
  poll_buttons 4 0 st = (Some i, set_pins rest (delay 20 st)).
Proof.
  intros Hi Hlen Hpass H1 H2 Hheld Hrel Hp.
  replace 4%nat with (length pre + S (3 - length pre))%nat by lia.
  rewrite (poll_buttons_passes pre _ 0 st _ Hpass Hp), poll_buttons_S.
  replace (0 + Z.of_nat (length pre)) with i by lia.
  rewrite (try_button_held i (set_pins (s1 :: s2 :: held ++ rel :: rest) st)
             s1 s2 (held ++ rel :: rest) eq_refl H1 H2).
  rewrite release_script_held by assumption.
  reflexivity.
Qed.

Lemma poll_buttons_idle st tail :
  pins st = replicate 4 [] ++ tail ->
  poll_buttons 4 0 st = (None, set_pins tail st).
Proof.
  intros Hp.
  exact (poll_buttons_passes (replicate 4 []) 0 0 st tail
           ltac:(simpl; tauto) Hp).
Qed.

Lemma set_pins_delays a k : forall st,
  set_pins a (Nat.iter k (delay 1) st) = Nat.iter k (delay 1) (set_pins a st).
Proof. induction k as [|k IH]; intros st; simpl; [| rewrite <- IH]; reflexivity. Qed.

Lemma pins_delays k st : pins (Nat.iter k (delay 1) st) = pins st.
Proof. induction k as [|k IH]; simpl; [reflexivity | exact IH]. Qed.

(** [k] rounds in which nothing is pressed, one millisecond each. *)
Lemma readButtonsDebounced_fuel_idle_rounds k : forall st tail fuel,
  pins st = replicate (4 * k) [] ++ tail ->
  readButtonsDebounced_fuel (k + fuel) st =
  readButtonsDebounced_fuel fuel (set_pins tail (Nat.iter k (delay 1) st)).
Proof.
  induction k as [|k IH]; intros st tail fuel Hp.
  - simpl in *. subst tail. now rewrite set_pins_same.
  - replace (4 * S k)%nat with (4 + 4 * k)%nat in Hp by lia.
    rewrite replicate_add, <- app_assoc in Hp.
    cbn [Nat.add readButtonsDebounced_fuel].
    rewrite (poll_buttons_idle st _ Hp).
    rewrite (IH _ tail fuel) by reflexivity.
    rewrite Nat.iter_succ_r, !set_pins_delays. reflexivity.
Qed.

(** After [k] idle rounds, button [i] is found closed at its poll and at
    the re-poll, stays closed during [held] and is open at [rel]: the
    reader returns [i], having consumed the script up to and including
    [rel]. *)
Lemma readButtonsDebounced_hold st k i pre s1 s2 held rel rest :
  0 <= i <= 3 -> length pre = Z.to_nat i -> passes 0 pre ->
  is_low s1 (buttonPins_at i) = true -> is_low s2 (buttonPins_at i) = true ->
  Forall (fun s => is_low s (buttonPins_at i) = true) held ->
  is_low rel (buttonPins_at i) = false ->
  pins st = replicate (4 * k) [] ++ pre ++ s1 :: s2 :: held ++ rel :: rest ->
  readButtonsDebounced st =
  Some (i, set_pins rest (delay 20 (Nat.iter k (delay 1) st))).
Proof.
  intros Hi Hlen Hpass H1 H2 Hheld Hrel Hp.
  apply (readButtonsDebounced_adequate (k + 1)).
  rewrite (readButtonsDebounced_fuel_idle_rounds k st _ 1 Hp).
  cbn [readButtonsDebounced_fuel].
  rewrite (poll_buttons_hold _ i pre s1 s2 held rel rest) by done.
  rewrite set_pins_delay. reflexivity.
Qed.

Lemma passes_press i :
  0 <= i <= 3 -> passes 0 (replicate (Z.to_nat i) [buttonPins_at i]).
Proof.
  intros Hi.
  assert (Hc : i = 0 \/ i = 1 \/ i = 2 \/ i = 3) by lia.
  destruct Hc as [-> | [-> | [-> | ->]]]; vm_compute; tauto.
Qed.

Lemma is_low_self pin : is_low [pin] pin = true.
Proof. unfold is_low. simpl. now rewrite Z.eqb_refl. Qed.

(** The player presses button [i] and lets go. *)
Lemma readButtonsDebounced_press st i held rest :
  0 <= i <= 3 -> pins st = press i held ++ rest ->
  readButtonsDebounced st = Some (i, set_pins rest (delay 20 st)).
Proof.
  intros Hi Hp.
  apply (readButtonsDebounced_hold st 0 i
           (replicate (Z.to_nat i) [buttonPins_at i])
           [buttonPins_at i] [buttonPins_at i]
           (replicate held [buttonPins_at i]) [] rest);
    try done.
  - now rewrite length_replicate.
  - now apply passes_press.
  - apply is_low_self.
  - apply is_low_self.
  - apply Forall_replicate, is_low_self.
  - rewrite Hp. unfold press. cbn [replicate Nat.mul app].
    rewrite !replicate_add, <- !app_assoc. reflexivity.
Qed.

Lemma try_button_bounce i st s1 s2 rest :
  pins st = s1 :: s2 :: rest ->
  is_low s1 (buttonPins_at i) = true -> is_low s2 (buttonPins_at i) = false ->
  try_button i st = (false, set_pins rest (delay 20 st)).
Proof.
  intros Hp H1 H2. unfold try_button, digitalRead. rewrite Hp, H1. cbn.
  rewrite H2. reflexivity.
Qed.

(** C7.  Debounce of the blocking reader.
    - A button found closed at its poll and open at the re-poll 20 ms
      later is not returned: the scan goes on with the next button.  A
      press that is returned was seen closed in two consecutive samples,
      the poll and the re-poll; a script of bounces only registers
      nothing, however long the reader runs.
    - A button found closed at the poll and at the re-poll is returned
      once: the reader consumes the script for as long as the button
      stays closed and returns when it reads open, so what is left of
      the script starts after the release, and nothing more is registered
      unless a button is again seen closed twice. *)
Theorem debounce (st : state) :
  (forall i s1 s2 rest,
     pins st = s1 :: s2 :: rest ->
     is_low s1 (buttonPins_at i) = true ->
     is_low s2 (buttonPins_at i) = false ->
     try_button i st = (false, set_pins rest (delay 20 st))) /\
  (forall j st',
     readButtonsDebounced st = Some (j, st') -> closed_twice j (pins st)) /\
  (bounce_only (pins st) = true ->
   forall fuel, readButtonsDebounced_fuel fuel st = None) /\
  (forall k i pre s1 s2 held rel rest,
     0 <= i <= 3 -> length pre = Z.to_nat i -> passes 0 pre ->
     is_low s1 (buttonPins_at i) = true ->
     is_low s2 (buttonPins_at i) = true ->
     Forall (fun s => is_low s (buttonPins_at i) = true) held ->
     is_low rel (buttonPins_at i) = false ->
     pins st = replicate (4 * k) [] ++ pre ++ s1 :: s2 :: held ++ rel :: rest ->
     readButtonsDebounced st =
       Some (i, set_pins rest (delay 20 (Nat.iter k (delay 1) st))) /\
     (bounce_only rest = true ->
      forall fuel,
        readButtonsDebounced_fuel fuel
          (set_pins rest (delay 20 (Nat.iter k (delay 1) st))) = None)).
Proof.
  split; [intros i s1 s2 rest; apply try_button_bounce |].
  split; [intros j st' H; now apply readButtonsDebounced_spec in H |].
  split; [intros Hb fuel; now apply readButtonsDebounced_bounce |].
  intros k i pre s1 s2 held rel rest Hi Hlen Hpass H1 H2 Hheld Hrel Hp.
  split.
  - now apply (readButtonsDebounced_hold st k i pre s1 s2 held rel rest).
  - intros Hb fuel. now apply readButtonsDebounced_bounce.
Qed.

Lemma debounce_witness :
  readButtonsDebounced
    (playing CLASSIC false [2]
       (replicate 4 [] ++ [[2]; [2; 3]] ++ [2] :: [2] :: [[2]; [2; 3]]
        ++ [3] :: [[1]; []; [2]]))
  = Some (2, set_pins [[1]; []; [2]]
               (delay 20 (delay 1
                  (playing CLASSIC false [2]
                     (replicate 4 [] ++ [[2]; [2; 3]] ++ [2] :: [2]
                      :: [[2]; [2; 3]] ++ [3] :: [[1]; []; [2]]))))) /\
  readButtonsDebounced_fuel 50
    (set_pins [[1]; []; [2]]
       (delay 20 (delay 1
          (playing CLASSIC false [2]
             (replicate 4 [] ++ [[2]; [2; 3]] ++ [2] :: [2]
              :: [[2]; [2; 3]] ++ [3] :: [[1]; []; [2]]))))) = None.
Proof.
  destruct (proj2 (proj2 (proj2 (debounce
    (playing CLASSIC false [2]
       (replicate 4 [] ++ [[2]; [2; 3]] ++ [2] :: [2] :: [[2]; [2; 3]]
        ++ [3] :: [[1]; []; [2]])))))
    1%nat 2 [[2]; [2; 3]] [2] [2] [[2]; [2; 3]] [3] [[1]; []; [2]])
    as [Hret Hnext]; try reflexivity.
  - lia.
  - vm_compute. tauto.
  - repeat constructor.
  - split; [exact Hret | apply Hnext; reflexivity].
Defined.

(** ** readButtonsWithCountdown *)

Lemma quiet_countdown_display r st : quiet st (countdown_display r st).
Proof. by_fields st. repeat split. Qed.

Lemma clock_countdown_display r st : clock (countdown_display r st) = clock st.
Proof. reflexivity. Qed.

Lemma countdown_loop_unfold fuel ct start last st :
  countdown_loop fuel ct start last st =
  if to_ulong (millis st - start) <? ct then
    match fuel with
    | O => None
    | S fuel' =>
        let elapsed := to_ulong (millis st - start) in
        let remaining := to_int (to_ulong (ct - elapsed) / 1000) in
        let st1 := if negb (remaining =? last)
                   then countdown_display remaining st else st in
        let last' := if negb (remaining =? last) then remaining else last in
        match poll_buttons 4 0 st1 with
        | (Some i, st') => Some (i, st')
        | (None, st') => countdown_loop fuel' ct start last' (delay 10 st')
        end
    end
  else Some (255, st).
Proof. destruct fuel; reflexivity. Qed.

(** The loop ends: each round takes 10 ms or more, so [fuel] rounds are
    enough when 10 * fuel covers what is left of the countdown.  It ends
    with a button seen closed twice, or with 255 once the countdown has
    run out. *)
Lemma countdown_loop_spec fuel : forall ct start last st,
  0 <= ct <= 4294967196 ->
  ct <= to_ulong (clock st - start) + 10 * Z.of_nat fuel ->
  exists a str,
    countdown_loop fuel ct start last st = Some (a, str) /\
    frame st str /\ pins str `suffix_of` pins st /\
    (0 <= a <= 3 /\ closed_twice a (pins st) \/
     a = 255 /\ ct <= to_ulong (clock str - start)) /\
    (bounce_only (pins st) = true ->
     a = 255 /\ bounce_only (pins str) = true).
Proof.
  induction fuel as [|fuel IH]; intros ct start last st Hct Hfuel;
    rewrite countdown_loop_unfold; unfold millis;
    destruct (Z.ltb_spec (to_ulong (clock st - start)) ct) as [Hlt | Hge];
    try lia;
    try (exists 255, st; splits;
         [reflexivity | apply frame_refl | reflexivity | right; lia | done]).
  cbv zeta.
  set (remaining := to_int (to_ulong (ct - to_ulong (clock st - start)) / 1000)).
  set (st1 := if negb (remaining =? last)
              then countdown_display remaining st else st).
  assert (Hq : quiet st st1 /\ clock st1 = clock st).
  { unfold st1. destruct (negb _);
      [split; [apply quiet_countdown_display | reflexivity]
      | split; [apply quiet_refl | reflexivity]]. }
  destruct Hq as [[Hf1 Hp1] Hc1].
  destruct (poll_buttons 4 0 st1) as [[j|] st2] eqn:Ep;
    destruct (poll_buttons_spec _ _ _ _ _ Ep)
      as (Hf2 & Hs2 & (d & Hd & Hc2) & Hj & _ & _ & Hb2);
    rewrite Hp1 in *.
  - exists j, st2. destruct (Hj j eq_refl) as [Hr Hcl]. splits.
    + reflexivity.
    + eapply frame_trans; eassumption.
    + assumption.
    + left. split; [lia | assumption].
    + intros Hb. destruct (Hb2 Hb). discriminate.
  - pose proof (Z.mod_pos_bound (clock st - start) 4294967296 ltac:(lia)) as He.
    fold (to_ulong (clock st - start)) in He.
    assert (Hel : to_ulong (clock (delay 10 st2) - start)
                  = to_ulong (clock st - start) + d + 10).
    { cbn [clock delay]. rewrite elapsed_delay, Hc2, Hc1, to_ulong_add_l.
      apply to_ulong_small. lia. }
    destruct (IH ct start (if negb (remaining =? last) then remaining else last)
                 (delay 10 st2) Hct ltac:(lia))
      as (a & str & Hrun & Hf3 & Hs3 & Hres & Hb3).
    exists a, str. splits.
    + exact Hrun.
    + eapply frame_trans; [exact Hf1 |].
      eapply frame_trans; [exact Hf2 |].
      eapply frame_trans; [apply quiet_frame, quiet_delay | exact Hf3].
    + etrans; eassumption.
    + destruct Hres as [[Hr Hcl] | Hres]; [left | right; exact Hres].
      split; [exact Hr |]. eapply closed_twice_suffix; eassumption.
    + intros Hb. destruct (Hb2 Hb) as [_ Hb']. now apply Hb3.
Qed.

Lemma readButtonsWithCountdown_spec ct st :
  0 <= ct <= 4294967196 ->
  exists a str,
    readButtonsWithCountdown ct st = Some (a, str) /\
    frame st str /\ pins str `suffix_of` pins st /\
    (0 <= a <= 3 /\ closed_twice a (pins st) \/
     a = 255 /\ ct <= to_ulong (clock str - clock st)) /\
    (bounce_only (pins st) = true ->
     a = 255 /\ bounce_only (pins str) = true).
Proof.
  intros Hct. unfold readButtonsWithCountdown, millis.
  apply countdown_loop_spec; [exact Hct |].
  rewrite Z.sub_diag. unfold to_ulong at 1. rewrite Z.mod_0_l by lia.
  pose proof (Z.mod_pos_bound ct 10 ltac:(lia)).
  pose proof (Z.div_mod ct 10 ltac:(lia)).
  rewrite Nat2Z.inj_succ, Z2Nat.id by (apply Z.div_pos; lia). lia.
Qed.

(** readButtonsWithCountdown always returns. *)
Lemma readButtonsWithCountdown_total ct st :
  0 <= ct <= 4294967196 ->
  exists r, readButtonsWithCountdown ct st = Some r.
Proof.
  intros Hct. destruct (readButtonsWithCountdown_spec ct st Hct)
    as (a & str & H & _). now exists (a, str).
Qed.

(** The time of the return, on the clock of the model: a scan begun
    before the deadline is completed, which takes less than 90 ms. *)
Lemma countdown_loop_late fuel : forall ct start last st a str,
  0 <= ct <= 4294967196 ->
  to_ulong (clock st - start) < ct + 90 ->
  countdown_loop fuel ct start last st = Some (a, str) ->
  to_ulong (clock str - start) < ct + 90.
Proof.
  induction fuel as [|fuel IH]; intros ct start last st a str Hct He;
    rewrite countdown_loop_unfold; unfold millis;
    destruct (Z.ltb_spec (to_ulong (clock st - start)) ct) as [Hlt | Hge];
    try discriminate; try (intros [= <- <-]; exact He).
  cbv zeta.
  set (remaining := to_int (to_ulong (ct - to_ulong (clock st - start)) / 1000)).
  set (st1 := if negb (remaining =? last)
              then countdown_display remaining st else st).
  assert (Hc1 : clock st1 = clock st) by (unfold st1; now destruct (negb _)).
  pose proof (Z.mod_pos_bound (clock st - start) 4294967296 ltac:(lia)) as Hb.
  fold (to_ulong (clock st - start)) in Hb.
  destruct (poll_buttons 4 0 st1) as [[j|] st2] eqn:Ep;
    destruct (poll_buttons_spec _ _ _ _ _ Ep) as (_ & _ & (d & Hd & Hc2) & _).
  - intros [= <- <-]. rewrite Hc2, Hc1, to_ulong_small; lia.
  - apply IH; [exact Hct |]. cbn [clock delay].
    rewrite elapsed_delay, Hc2, Hc1, to_ulong_add_l.
    rewrite to_ulong_small; lia.
Qed.

(** ** A countdown during which nothing is pressed *)






(** ** A press during the countdown *)

(** A scan that returns button [j] has polled the buttons before it,
    with a bounce at most for each, and read button [j] closed twice,
    20 ms apart: [stc] is the state after the second read, and what
    follows is the wait for the release. *)
Lemma poll_buttons_confirm n : forall i st j st',
  poll_buttons n i st = (Some j, st') ->
  exists stc d,
    st' = wait_release (buttonPins_at j) stc /\
    pins stc `suffix_of` pins st /\
    0 <= d <= 20 * (j - i + 1) /\
    forall start, to_ulong (clock stc - start)
                  = to_ulong (to_ulong (clock st - start) + d).
Proof.
  induction n as [|n IH]; intros i st j st'; [discriminate |].
  rewrite poll_buttons_S.
  destruct (try_button i st) as [hit st1] eqn:Et.
  destruct (try_button_spec _ _ _ _ Et)
    as (_ & Hs & (d1 & Hd1 & _ & Hc1) & Hhit & _).
  destruct hit.
  - intros [= <- <-].
    destruct (Hhit eq_refl) as (s1 & s2 & r & Hp & _ & _ & ->).
    exists (set_pins r (delay 20 st)), 20.
    split; [reflexivity |].
    split; [cbn [pins set_pins]; rewrite Hp; do 2 apply suffix_cons_r; reflexivity |].
    split; [lia |]. intros start. cbn [clock set_pins delay]. apply elapsed_delay.
  - intros Hq. destruct (poll_buttons_spec _ _ _ _ _ Hq) as (_ & _ & _ & Hj & _).
    destruct (Hj j eq_refl) as [Hrange _].
    destruct (IH _ _ _ _ Hq) as (stc & d2 & -> & Hs2 & Hd2 & Hc2).
    exists stc, (d1 + d2). split; [reflexivity |].
    split; [etrans; eassumption |]. split; [lia |].
    intros start. rewrite Hc2, Hc1, to_ulong_add_l. f_equal. lia.
Qed.

Lemma countdown_loop_confirm fuel : forall ct start last st a str,
  0 <= ct <= 4294967196 ->
  countdown_loop fuel ct start last st = Some (a, str) -> a <> 255 ->
  exists stc,
    str = wait_release (buttonPins_at a) stc /\
    to_ulong (clock stc - start) < ct + 20 * (a + 1).
Proof.
  induction fuel as [|fuel IH]; intros ct start last st a str Hct;
    rewrite countdown_loop_unfold; unfold millis;
    destruct (Z.ltb_spec (to_ulong (clock st - start)) ct) as [Hlt | Hge];
    try discriminate; try (intros [= <- <-] Hne; now destruct Hne).
  cbv zeta.
  set (remaining := to_int (to_ulong (ct - to_ulong (clock st - start)) / 1000)).
  set (st1 := if negb (remaining =? last)
              then countdown_display remaining st else st).
  assert (Hc1 : clock st1 = clock st) by (unfold st1; now destruct (negb _)).
  pose proof (Z.mod_pos_bound (clock st - start) 4294967296 ltac:(lia)) as Hb.
  fold (to_ulong (clock st - start)) in Hb.
  destruct (poll_buttons 4 0 st1) as [[j|] st2] eqn:Ep.
  - intros [= <- <-] _.
    destruct (poll_buttons_spec _ _ _ _ _ Ep) as (_ & _ & _ & Hj & _).
    destruct (Hj j eq_refl) as [Hrange _].
    destruct (poll_buttons_confirm _ _ _ _ _ Ep) as (stc & d & -> & _ & Hd & Hc).
    exists stc. split; [reflexivity |].
    rewrite Hc, Hc1, to_ulong_small; lia.
  - apply IH. exact Hct.
Qed.

(** ** The verification loop *)

Lemma read_input_spec st a str :
  read_input st = Some (a, str) ->
  frame st str /\ pins str `suffix_of` pins st /\
  (0 <= a <= 3 /\ closed_twice a (pins st) \/
   a = 255 /\ currentMode st = SPEED /\
   3000 <= to_ulong (clock str - clock st)).
Proof.
  unfold read_input. destruct (GameMode_eqb (currentMode st) SPEED) eqn:Em.
  - apply GameMode_eqb_eq in Em.
    destruct (readButtonsWithCountdown_spec 3000 st ltac:(lia))
      as (a' & str' & -> & Hf & Hs & Hres & _).
    intros [= <- <-]. splits; [done | done |].
    destruct Hres as [H | [H1 H2]]; [left; exact H | right; done].
  - intros H. apply readButtonsDebounced_spec in H as (Hr & Hf & Hc & Hs).
    splits; [done | done | left; done].
Qed.

Lemma expected_at_frame i st st' :
  frame st st' -> expected_at i st' = expected_at i st.
Proof.
  intros (Hg & Hl & _ & _ & Hm & _). unfold expected_at, gameSequence_at.
  now rewrite Hg, Hl, Hm.
Qed.

Lemma accept_steps_frame k : forall i st stk,
  accept_steps k i st = Some stk ->
  frame st stk /\ pins stk `suffix_of` pins st.
Proof.
  induction k as [|k IH]; intros i st stk; simpl.
  - intros [= <-]. split; [apply frame_refl | reflexivity].
  - destruct (read_input st) as [[a st1]|] eqn:Er; [| discriminate].
    destruct (_ || _); [discriminate |]. intros Hk.
    apply read_input_spec in Er as (Hf1 & Hs1 & _).
    apply IH in Hk as [Hf2 Hs2].
    destruct (quiet_echo a st1) as [Hf3 Hp3]. rewrite Hp3 in Hs2. split.
    + eapply frame_trans; [exact Hf1 |]. eapply frame_trans; eassumption.
    + etrans; eassumption.
Qed.

(** A timeout and a wrong button take the same branch. *)
Lemma check_from_reject n i st a str :
  read_input st = Some (a, str) ->
  a = 255 \/ expected_at i st <> a ->
  check_from (S n) i st = Some (false, set_lives (to_byte (lives str - 1)) str).
Proof.
  intros Hr Ha. simpl. rewrite Hr.
  destruct (a =? 255) eqn:E1; [reflexivity |].
  destruct (expected_at i st =? a) eqn:E2; [lia | reflexivity].
Qed.

Lemma check_from_accepted n : forall i st st',
  accept_steps n i st = Some st' -> check_from n i st = Some (true, st').
Proof.
  induction n as [|n IH]; intros i st st'; simpl.
  - now intros [= <-].
  - destruct (read_input st) as [[a st1]|]; [| discriminate].
    destruct (_ || _); [discriminate | apply IH].
Qed.

Lemma check_from_rejected k : forall n i st stk a str,
  (k < n)%nat -> accept_steps k i st = Some stk ->
  read_input stk = Some (a, str) ->
  a = 255 \/ expected_at (i + Z.of_nat k) stk <> a ->
  check_from n i st = Some (false, set_lives (to_byte (lives str - 1)) str).
Proof.
  induction k as [|k IH]; intros n i st stk a str Hk Hacc Hr Ha;
    (destruct n as [|n]; [lia |]).
  - simpl in Hacc. injection Hacc as <-. rewrite Z.add_0_r in Ha.
    exact (check_from_reject n i st a str Hr Ha).
  - simpl in Hacc |- *.
    destruct (read_input st) as [[a1 st1]|]; [| discriminate].
    destruct (_ || _); [discriminate |].
    apply (IH n (i + 1) _ stk a str); [lia | assumption | assumption |].
    now replace (i + 1 + Z.of_nat k) with (i + Z.of_nat (S k)) by lia.
Qed.

Lemma check_from_inv n : forall i st ok st',
  check_from n i st = Some (ok, st') ->
  if ok then accept_steps n i st = Some st'
  else exists k stk a str,
      (k < n)%nat /\ accept_steps k i st = Some stk /\
      read_input stk = Some (a, str) /\
      (a = 255 \/ expected_at (i + Z.of_nat k) stk <> a) /\
      st' = set_lives (to_byte (lives str - 1)) str.
Proof.
  induction n as [|n IH]; intros i st ok st'; simpl.
  - now intros [= <- <-].
  - destruct (read_input st) as [[a st1]|] eqn:Er; [| discriminate].
    destruct (a =? 255) eqn:E1; simpl.
    + intros [= <- <-]. exists 0%nat, st, a, st1.
      splits; [lia | done | done | left; lia | done].
    + destruct (expected_at i st =? a) eqn:E2; simpl.
      * intros H. specialize (IH _ _ _ _ H). destruct ok; [exact IH |].
        destruct IH as (k & stk & a' & str & Hk & Hacc & Hr & Ha & ->).
        exists (S k), stk, a', str. simpl. rewrite Er, E1, E2. simpl.
        splits; [lia | done | done | | done].
        now replace (i + Z.of_nat (S k)) with (i + 1 + Z.of_nat k) by lia.
      * intros [= <- <-]. exists 0%nat, st, a, st1.
        splits; [lia | done | done | right; rewrite Z.add_0_r; lia | done].
Qed.

Lemma checkUserSequence_rejected st k stk a str :
  0 < lives st < 256 ->
  (k < Z.to_nat (Level st))%nat ->
  accept_steps k 0 st = Some stk ->
  read_input stk = Some (a, str) ->
  a = 255 \/ expected_at (Z.of_nat k) stk <> a ->
  checkUserSequence st = Some (false, set_lives (lives st - 1) str) /\
  frame st str.
Proof.
  intros Hlives Hk Hacc Hr Ha.
  destruct (accept_steps_frame _ _ _ _ Hacc) as [Hf1 _].
  destruct (read_input_spec _ _ _ Hr) as (Hf2 & _).
  pose proof (frame_trans _ _ _ Hf1 Hf2) as Hf. split; [| exact Hf].
  unfold checkUserSequence.
  rewrite (check_from_rejected k _ 0 st stk a str Hk Hacc Hr Ha).
  destruct Hf as (_ & _ & -> & _). now rewrite to_byte_small by lia.
Qed.

Lemma checkUserSequence_inv st ok st' :
  0 < lives st < 256 ->
  checkUserSequence st = Some (ok, st') ->
  Level st' = Level st /\ currentMode st' = currentMode st /\
  gameSequence st' = gameSequence st /\
  if ok then
    lives st' = lives st /\
    accept_steps (Z.to_nat (Level st)) 0 st = Some st'
  else
    lives st' = lives st - 1 /\
    exists k stk a str,
      (k < Z.to_nat (Level st))%nat /\
      accept_steps k 0 st = Some stk /\
      read_input stk = Some (a, str) /\
      (a = 255 \/ expected_at (Z.of_nat k) stk <> a) /\
      st' = set_lives (lives st - 1) str.
Proof.
  intros Hlives Hc. unfold checkUserSequence in Hc.
  apply check_from_inv in Hc. destruct ok.
  - destruct (accept_steps_frame _ _ _ _ Hc) as [(Hg & Hl & Hli & _ & Hm & _) _].
    done.
  - destruct Hc as (k & stk & a & str & Hk & Hacc & Hr & Ha & ->).
    rewrite Z.add_0_l in Ha.
    destruct (checkUserSequence_rejected st k stk a str Hlives Hk Hacc Hr Ha)
      as [_ (Hg & Hl & Hli & _ & Hm & _)].
    rewrite Hli, to_byte_small by lia. cbn. splits; try done.
    exists k, stk, a, str. done.
Qed.

(** C2.  checkUserSequence returns [true] exactly when all Level steps
    are accepted, and then the lives are as before.  It returns [false]
    at the first step whose press is wrong or timed out: the lives go
    down by exactly 1, and the state is otherwise the one the reader of
    that step returned, so nothing more is read or echoed.  Level, the
    mode and the sequence are the same in both cases.  (loop() runs the
    verification only when lives is not 0; lives is a byte.) *)
Theorem failed_attempt (st : state) :
  0 < lives st < 256 ->
  (forall ok st',
     checkUserSequence st = Some (ok, st') ->
     Level st' = Level st /\ currentMode st' = currentMode st /\
     gameSequence st' = gameSequence st /\
     if ok then
       lives st' = lives st /\
       accept_steps (Z.to_nat (Level st)) 0 st = Some st'
     else
       lives st' = lives st - 1 /\
       exists k stk a str,
         (k < Z.to_nat (Level st))%nat /\
         accept_steps k 0 st = Some stk /\
         read_input stk = Some (a, str) /\
         (a = 255 \/ expected_at (Z.of_nat k) stk <> a) /\
         st' = set_lives (lives st - 1) str) /\
  (forall st',
     accept_steps (Z.to_nat (Level st)) 0 st = Some st' ->
     checkUserSequence st = Some (true, st')) /\
  (forall k stk a str,
     (k < Z.to_nat (Level st))%nat ->
     accept_steps k 0 st = Some stk ->
     read_input stk = Some (a, str) ->
     a = 255 \/ expected_at (Z.of_nat k) stk <> a ->
     checkUserSequence st = Some (false, set_lives (lives st - 1) str)).
Proof.
  intros Hlives. split; [| split].
  - intros ok st'. now apply checkUserSequence_inv.
  - apply check_from_accepted.
  - intros k stk a str Hk Hacc Hr Ha.
    now apply (checkUserSequence_rejected st k stk a str).
Qed.

Lemma failed_attempt_witness :
  checkUserSequence
    (playing CLASSIC false [3; 1; 2] (press 3 0 ++ press 2 1 ++ press 2 0))
  = Some (false,
          set_lives 2
            (set_pins (press 2 0)
               (delay 20
                  (echo 3
                     (set_pins (press 2 1 ++ press 2 0)
                        (delay 20
                           (playing CLASSIC false [3; 1; 2]
                              (press 3 0 ++ press 2 1 ++ press 2 0)))))))).
Proof.
  apply (proj2 (proj2 (failed_attempt
           (playing CLASSIC false [3; 1; 2]
              (press 3 0 ++ press 2 1 ++ press 2 0))
           ltac:(simpl; lia))) 1%nat
         (echo 3 (set_pins (press 2 1 ++ press 2 0)
                    (delay 20 (playing CLASSIC false [3; 1; 2]
                                 (press 3 0 ++ press 2 1 ++ press 2 0)))))
         2).
  - simpl. lia.
  - reflexivity.
  - reflexivity.
  - right. vm_compute. discriminate.
Defined.

(** C10.  Whatever readButtonsDebounced returns is one of 0, 1, 2, 3,
    never 255 (and it does return when a button is pressed and let go;
    when it returns nothing, no number of rounds of its loop would).
    So outside Speed mode a failed verification comes from a press of a
    button other than the expected one. *)
Theorem blocking_reader_range (st : state) :
  (forall fuel j st',
     readButtonsDebounced_fuel fuel st = Some (j, st') ->
     0 <= j <= 3 /\ j <> 255) /\
  (readButtonsDebounced st = None ->
   forall fuel, readButtonsDebounced_fuel fuel st = None) /\
  (forall i held rest,
     0 <= i <= 3 -> pins st = press i held ++ rest ->
     readButtonsDebounced st = Some (i, set_pins rest (delay 20 st))) /\
  (currentMode st <> SPEED ->
   forall st',
     checkUserSequence st = Some (false, st') ->
     exists k stk a str,
       (k < Z.to_nat (Level st))%nat /\
       accept_steps k 0 st = Some stk /\
       readButtonsDebounced stk = Some (a, str) /\
       0 <= a <= 3 /\ expected_at (Z.of_nat k) stk <> a /\
       st' = set_lives (to_byte (lives str - 1)) str).
Proof.
  split; [| split; [| split]].
  - intros fuel j st' H.
    apply readButtonsDebounced_fuel_spec in H as (Hr & _). lia.
  - apply readButtonsDebounced_blocks.
  - intros i held rest. apply readButtonsDebounced_press.
  - intros Hm st' Hc. apply check_from_inv in Hc.
    destruct Hc as (k & stk & a & str & Hk & Hacc & Hr & Ha & ->).
    exists k, stk, a, str.
    destruct (accept_steps_frame _ _ _ _ Hacc) as [(_ & _ & _ & _ & Hmk & _) _].
    assert (Hrd : readButtonsDebounced stk = Some (a, str)).
    { unfold read_input in Hr.
      destruct (GameMode_eqb (currentMode stk) SPEED) eqn:E; [| exact Hr].
      apply GameMode_eqb_eq in E. congruence. }
    destruct (readButtonsDebounced_spec _ _ _ Hrd) as (Hrange & _).
    rewrite Z.add_0_l in Ha.
    splits; try done; lia.
Qed.

Lemma blocking_reader_range_witness :
  readButtonsDebounced (playing REVERSE false [3; 1] (press 3 2 ++ [[1]]))
  = Some (3, set_pins [[1]]
               (delay 20 (playing REVERSE false [3; 1] (press 3 2 ++ [[1]])))) /\
  exists k stk a str,
    (k < 2)%nat /\
    accept_steps k 0 (playing REVERSE false [3; 1] (press 3 2 ++ [[1]]))
      = Some stk /\
    readButtonsDebounced stk = Some (a, str) /\
    0 <= a <= 3 /\ expected_at (Z.of_nat k) stk <> a /\
    set_lives 2 (set_pins [[1]]
                   (delay 20 (playing REVERSE false [3; 1]
                                (press 3 2 ++ [[1]]))))
    = set_lives (to_byte (lives str - 1)) str.
Proof.
  destruct (blocking_reader_range
              (playing REVERSE false [3; 1] (press 3 2 ++ [[1]])))
    as (_ & _ & Hpress & Hfail).
  split.
  - apply (Hpress 3 2%nat [[1]]); [lia | reflexivity].
  - apply Hfail; [discriminate | reflexivity].
Defined.

(** ** One call of loop() *)

Lemma quiet_playMistakeSound st : quiet st (playMistakeSound st).
Proof. by_fields st. destruct mu; repeat split. Qed.

Lemma quiet_flashAllLEDsSync times d st : quiet st (flashAllLEDsSync times d st).
Proof.
  apply quiet_for_loop. intros _ s. by_fields s. repeat split.
Qed.

Lemma quiet_celebrateCorrectSequence st : quiet st (celebrateCorrectSequence st).
Proof.
  apply quiet_for_loop. intros i s. by_fields s. destruct mu; repeat split.
Qed.

Lemma quiet_report_wrong st : quiet st (report_wrong st).
Proof.
  by_fields st. unfold report_wrong. cbn.
  destruct (li >? 0), mu; repeat split.
Qed.

Lemma quiet_report_correct st : quiet st (report_correct st).
Proof. by_fields st. destruct mu; repeat split. Qed.

Lemma quiet_report_status st : quiet st (report_status st).
Proof. by_fields st. repeat split. Qed.

(** loop() when a life is left and the verification returns. *)
Lemma loop_running st ok st1 :
  lives st <> 0 ->
  checkUserSequence (playSequence (extend st)) = Some (ok, st1) ->
  exists st2, loop st = Running st2 /\ quiet st1 st2.
Proof.
  intros Hl Hc. unfold loop. destruct (Z.eqb_spec (lives st) 0); [done |].
  rewrite Hc. eexists. split; [reflexivity |].
  eapply quiet_trans; [| apply quiet_report_status].
  destruct ok; [apply quiet_report_correct | apply quiet_report_wrong].
Qed.



(** ** Reaching the end of the game *)

Lemma booted_wf st : booted st -> wf st.
Proof.
  intros (Hg & Hl & Hli). unfold wf. rewrite Hg, Hl, Hli.
  splits; try lia; [apply length_replicate | apply Forall_replicate; lia].
Qed.

Lemma extend_wf st : wf st -> wf (extend st) /\ 1 <= Level (extend st).
Proof.
  intros (Hlen & HL & Hli & Hall).
  destruct (extend_fields st HL) as (Eg & El & Eli & _).
  pose proof (random_range 0 4 st ltac:(lia)) as Hr.
  unfold wf. rewrite Eg, El, Eli, length_insert.
  splits; try lia. apply Forall_insert; [assumption | lia].
Qed.

Lemma loop_wf st st' :
  wf st -> loop st = Running st' -> wf st' /\ 1 <= Level st'.
Proof.
  intros Hwf. destruct (extend_wf st Hwf) as [(Hlen & HL & Hli & Hall) H1].
  unfold loop. destruct (Z.eqb_spec (lives st) 0) as [| Hne]; [discriminate |].
  destruct (quiet_playSequence (extend st)) as [(Pg & Pl & Pli & _) _].
  destruct (checkUserSequence _) as [[ok st1]|] eqn:Hc; [| discriminate].
  intros [= <-].
  destruct Hwf as (_ & HL0 & Hli0 & _).
  destruct (extend_fields st HL0) as (_ & _ & Eli & _).
  apply checkUserSequence_inv in Hc as (Cl & _ & Cg & Clives); [| lia].
  assert (Hq : quiet st1 (report_status (if negb ok then report_wrong st1
                                         else report_correct st1))).
  { eapply quiet_trans; [| apply quiet_report_status].
    destruct ok; [apply quiet_report_correct | apply quiet_report_wrong]. }
  destruct Hq as [(Qg & Ql & Qli & _) _].
  unfold wf. rewrite Qg, Ql, Qli, Cg, Cl, Pg, Pl.
  splits; try done; try lia; destruct ok; lia.
Qed.

Lemma step_running o st' :
  step o = Running st' -> exists st, o = Running st /\ loop st = Running st'.
Proof. destruct o as [st| |]; [eauto | discriminate | discriminate]. Qed.

Lemma run_wf n : forall st st',
  wf st -> run n st = Running st' ->
  wf st' /\ (n = 0%nat /\ st' = st \/ 1 <= Level st').
Proof.
  unfold run. induction n as [|n IH]; intros st st' Hwf; simpl.
  - intros [= <-]. split; [assumption | left; done].
  - intros Hs. apply step_running in Hs as (st1 & Hrun & Hloop).
    destruct (IH _ _ Hwf Hrun) as [Hwf1 _].
    destruct (loop_wf _ _ Hwf1 Hloop). split; [assumption | right; assumption].
Qed.

Lemma step_halted n st : Nat.iter n step (Halted st) = Halted st.
Proof. induction n as [|n IH]; simpl; [reflexivity | now rewrite IH]. Qed.

Lemma run_add n m st : run (n + m) st = Nat.iter m step (run n st).
Proof.
  unfold run. rewrite Nat.add_comm. induction m as [|m IH]; simpl; [reflexivity |].
  now rewrite IH.
Qed.


Lemma gameOverScreen_spec st :
  1 <= Level st <= 99 ->
  quiet st (gameOverScreen st) /\
  exists jingle,
    out (gameOverScreen st) =
      out st ++ [LcdClear; LcdSetCursor 3 0; LcdPrint "Game Over!";
                 LcdSetCursor 2 1; LcdPrint "Score: ";
                 LcdPrintNum (Level st - 1); Delay 2000] ++ jingle /\
    forallb is_jingle jingle = true.
Proof.
  intros HL. destruct st as [gs lv li mu mo ee pi rn cl ou].
  cbn [Level out] in HL |- *.
  destruct mu; run_output; rewrite (to_int_small (lv - 1)) by lia.
  - split; [repeat split |]. eexists. split.
    + rewrite <- !app_assoc. reflexivity.
    + reflexivity.
  - split; [repeat split |]. eexists. split.
    + rewrite <- !app_assoc. reflexivity.
    + reflexivity.
Qed.

Lemma showGameOver_out st :
  1 <= Level st <= 99 ->
  out (showGameOver st) =
    out (updateHighScore (Level st - 1) (gameOverScreen st))
    ++ [LcdClear; LcdSetCursor 1 0; LcdPrint "High Score: ";
        LcdPrintNum (EEPROM_read highScoreAddress
                       (updateHighScore (Level st - 1) (gameOverScreen st)));
        Delay 4000; LcdClear] /\
  quiet (updateHighScore (Level st - 1) (gameOverScreen st)) (showGameOver st).
Proof.
  intros HL. destruct (gameOverScreen_spec st HL) as [[(_ & Hl & _) _] _].
  unfold showGameOver. cbv zeta. rewrite Hl.
  rewrite (to_int_small (Level st - 1)), (to_byte_small (Level st - 1)) by lia.
  generalize (updateHighScore (Level st - 1) (gameOverScreen st)). intros s.
  split; [| repeat split].
  cbn [out lcd_clear lcd_setCursor lcd_print
                                lcd_print_num delay emit].
  now rewrite <- !app_assoc.
Qed.

(** C8.  When lives are 0 at the start of loop(), showGameOver runs: it
    shows "Score: " and Level - 1, plays the failure jingle, calls the
    high-score update with exactly Level - 1, then shows what the EEPROM
    holds after that update.  It reads no button, and loop() never
    returns from it: however often the runtime would call loop() again,
    the system stays halted in the same state. *)
Theorem game_over (st0 : state) (n : nat) (st : state) :
  booted st0 -> run n st0 = Running st -> lives st = 0 ->
  1 <= Level st <= 99 /\
  loop st = Halted (showGameOver st) /\
  quiet st (gameOverScreen st) /\
  (exists jingle,
     out (gameOverScreen st) =
       out st ++ [LcdClear; LcdSetCursor 3 0; LcdPrint "Game Over!";
                  LcdSetCursor 2 1; LcdPrint "Score: ";
                  LcdPrintNum (Level st - 1); Delay 2000] ++ jingle /\
     forallb is_jingle jingle = true) /\
  out (showGameOver st) =
    out (updateHighScore (Level st - 1) (gameOverScreen st))
    ++ [LcdClear; LcdSetCursor 1 0; LcdPrint "High Score: ";
        LcdPrintNum (EEPROM_read highScoreAddress
                       (updateHighScore (Level st - 1) (gameOverScreen st)));
        Delay 4000; LcdClear] /\
  EEPROM_read highScoreAddress (showGameOver st) =
    (if (EEPROM_read highScoreAddress st =? 255)
        || (Level st - 1 >? EEPROM_read highScoreAddress st)
     then Level st - 1 else EEPROM_read highScoreAddress st) /\
  pins (showGameOver st) = pins st /\
  forall m, run (n + S m) st0 = Halted (showGameOver st).
Proof.
  intros Hboot Hrun Hlives.
  destruct (run_wf n st0 st (booted_wf _ Hboot) Hrun)
    as [(_ & HL & _ & _) Hcase].
  assert (HL1 : 1 <= Level st <= 99).
  { destruct Hcase as [[_ ->] | H]; [| lia].
    destruct Hboot as (_ & _ & H3). lia. }
  assert (Hloop : loop st = Halted (showGameOver st)).
  { unfold loop. rewrite Hlives. reflexivity. }
  destruct (gameOverScreen_spec st HL1) as [Hq Hj].
  destruct (showGameOver_out st HL1) as [Ho [(_ & _ & _ & _ & _ & He & _) Hp]].
  split; [exact HL1 |]. split; [exact Hloop |]. split; [exact Hq |].
  split; [exact Hj |]. split; [exact Ho |]. split; [| split].
  - etrans; [apply EEPROM_read_eeprom, He |].
    etrans; [apply updateHighScore_read |].
    destruct Hq as [(_ & _ & _ & _ & _ & Hee & _) _].
    now rewrite (EEPROM_read_eeprom highScoreAddress _ _ Hee).
  - etrans; [exact Hp |]. etrans; [apply updateHighScore_pins |]. apply Hq.
  - intros m. rewrite run_add, Hrun. cbn [Nat.iter].
    rewrite Nat.iter_succ_r. cbn [step]. rewrite Hloop. apply step_halted.
Qed.

Lemma game_over_witness :
  exists st,
    run 3 (power_on SPEED true ∅ [] [1; 2; 3]) = Running st /\
    loop st = Halted (showGameOver st) /\
    EEPROM_read highScoreAddress (showGameOver st) = 2 /\
    run 10 (power_on SPEED true ∅ [] [1; 2; 3]) = Halted (showGameOver st).
Proof.
  eexists. split; [vm_compute; reflexivity |].
  match goal with
  | |- loop ?s = _ /\ _ =>
      destruct (game_over (power_on SPEED true ∅ [] [1; 2; 3]) 3 s)
        as (_ & Hloop & _ & _ & _ & He & _ & Hhalt)
  end.
  - repeat split.
  - vm_compute. reflexivity.
  - reflexivity.
  - split; [exact Hloop |]. split; [rewrite He; reflexivity |].
    exact (Hhalt 6%nat).
Defined.

(** ** The scenarios of the specification, run on the model *)

(** Level 3, sequence [1; 0; 2], Classic, the player presses 1, 0, 2:
    the verification succeeds and no life is lost. *)
Example scenario_classic :
  match checkUserSequence
          (playing CLASSIC false [1; 0; 2] (press 1 3 ++ press 0 0 ++ press 2 1))
  with
  | Some (ok, st) => (ok, lives st, Level st)
  | None => (false, 0, 0)
  end = (true, 3, 3).
Proof. vm_compute. reflexivity. Qed.

(** Level 2, sequence [3; 1], Reverse, the player presses 1, 3. *)
Example scenario_reverse :
  match checkUserSequence
          (playing REVERSE false [3; 1] (press 1 0 ++ press 3 2))
  with
  | Some (ok, st) => (ok, lives st)
  | None => (false, 0)
  end = (true, 3).
Proof. vm_compute. reflexivity. Qed.

(** Speed mode, nothing pressed: timeout at the first step, one life
    less, 3000 ms on the clock. *)
Example scenario_speed_timeout :
  match checkUserSequence (playing SPEED false [3; 1] []) with
  | Some (ok, st) => (ok, lives st, clock st)
  | None => (true, 0, 0)
  end = (false, 2, 3000).
Proof. vm_compute. reflexivity. Qed.

(** Three failed rounds in a row from power-on: the fourth call of
    loop() is the game over, with score Level - 1 = 2 stored. *)
Example scenario_three_failures :
  match run 4 (power_on SPEED true ∅ [] [1; 2; 3]) with
  | Halted st =>
      (Level st, lives st, EEPROM_read highScoreAddress st,
       existsb (fun e => match e with LcdPrintNum 2 => true | _ => false end)
               (out st))
  | _ => (0, 0, 0, false)
  end = (3, 0, 2, true).
Proof. vm_compute. reflexivity. Qed.

(** * Further properties of the sketch *)

(** ** The high score over a whole series of games *)

Lemma foldr_max_swap a b l :
  foldr Z.max (Z.max a b) l = Z.max b (foldr Z.max a l).
Proof. induction l as [|c l IH]; simpl; [lia | rewrite IH; lia]. Qed.

Lemma foldr_max_base c l :
  0 <= c -> foldr Z.max c l = Z.max c (foldr Z.max 0 l).
Proof. intros Hc. induction l as [|d l IH]; simpl; [lia | rewrite IH; lia]. Qed.

Lemma updates_real l : forall st,
  0 <= EEPROM_read highScoreAddress st < 255 ->
  Forall (fun c => 0 <= c < 255) l ->
  EEPROM_read highScoreAddress (updates l st)
  = foldr Z.max (EEPROM_read highScoreAddress st) l.
Proof.
  unfold updates. induction l as [|c l IH]; intros st Hh Hl; simpl.
  - reflexivity.
  - inversion Hl as [|? ? Hc Hl']; subst.
    assert (Hu : EEPROM_read highScoreAddress (updateHighScore c st)
                 = Z.max (EEPROM_read highScoreAddress st) c).
    { rewrite updateHighScore_read.
      destruct (Z.eqb_spec (EEPROM_read highScoreAddress st) 255); [lia |].
      destruct (Z.gtb_spec c (EEPROM_read highScoreAddress st)); simpl; lia. }
    rewrite IH; [| rewrite Hu; lia | assumption].
    rewrite Hu. apply foldr_max_swap.
Qed.

(** X1.  After any series of updates with real scores (0..254) the
    EEPROM holds the largest of them and of the score stored before; when
    nothing was stored before (255) it holds the largest of the new
    scores, and still 255 when there were none. *)
Theorem updates_maximum (l : list Z) (st : state) :
  0 <= EEPROM_read highScoreAddress st <= 255 ->
  Forall (fun c => 0 <= c < 255) l ->
  EEPROM_read highScoreAddress (updates l st) =
  if EEPROM_read highScoreAddress st =? 255
  then match l with [] => 255 | _ :: _ => foldr Z.max 0 l end
  else foldr Z.max (EEPROM_read highScoreAddress st) l.
Proof.
  intros Hh Hl.
  destruct (Z.eqb_spec (EEPROM_read highScoreAddress st) 255) as [E | E].
  - destruct l as [|c l]; [exact E |].
    inversion Hl as [|? ? Hc Hl']; subst.
    assert (Hu : EEPROM_read highScoreAddress (updateHighScore c st) = c).
    { rewrite updateHighScore_read, E. reflexivity. }
    change (updates (c :: l) st) with (updates l (updateHighScore c st)).
    rewrite updates_real; [| rewrite Hu; lia | assumption].
    rewrite Hu. simpl. rewrite foldr_max_base by lia. lia.
  - apply updates_real; [lia | assumption].
Qed.

Lemma updates_maximum_witness :
  EEPROM_read highScoreAddress
    (updates [3; 7; 5] (playing CLASSIC false [] [])) = 7.
Proof.
  exact (updates_maximum [3; 7; 5] (playing CLASSIC false [] [])
           ltac:(vm_compute; split; discriminate)
           ltac:(repeat (constructor; [lia |]); constructor)).
Defined.

(** X2.  updateHighScore touches one EEPROM cell and the log, nothing
    else, and with a real score it is idempotent: a second call with the
    same score writes nothing. *)
Theorem updateHighScore_idempotent (s : Z) (st : state) :
  s <> 255 ->
  updateHighScore s (updateHighScore s st) = updateHighScore s st /\
  (forall addr, addr <> highScoreAddress ->
     EEPROM_read addr (updateHighScore s st) = EEPROM_read addr st) /\
  gameSequence (updateHighScore s st) = gameSequence st /\
  Level (updateHighScore s st) = Level st /\
  lives (updateHighScore s st) = lives st /\
  isMuted (updateHighScore s st) = isMuted st /\
  currentMode (updateHighScore s st) = currentMode st /\
  pins (updateHighScore s st) = pins st /\
  rnd (updateHighScore s st) = rnd st /\
  clock (updateHighScore s st) = clock st.
Proof.
  intros Hs. split.
  - apply updateHighScore_kept. rewrite updateHighScore_read.
    destruct (Z.eqb_spec (EEPROM_read highScoreAddress st) 255) as [E | E];
      simpl; [lia |].
    destruct (Z.gtb_spec s (EEPROM_read highScoreAddress st)); lia.
  - unfold updateHighScore. destruct (_ || _); [| repeat split].
    split; [| repeat split].
    intros addr Ha. unfold EEPROM_read, EEPROM_write. cbn.
    now rewrite lookup_insert_ne by congruence.
Qed.

Lemma updateHighScore_idempotent_witness :
  updateHighScore 7 (updateHighScore 7 (playing CLASSIC false [] []))
  = updateHighScore 7 (playing CLASSIC false [] []).
Proof.
  exact (proj1 (updateHighScore_idempotent 7 (playing CLASSIC false [] [])
                  ltac:(discriminate))).
Defined.

(** ** What a round of the game changes *)

Lemma checkUserSequence_keeps st ok st' :
  0 < lives st < 256 ->
  checkUserSequence st = Some (ok, st') ->
  gameSequence st' = gameSequence st /\ Level st' = Level st /\
  isMuted st' = isMuted st /\ currentMode st' = currentMode st /\
  eeprom st' = eeprom st /\ rnd st' = rnd st /\
  lives st' = (if ok then lives st else lives st - 1) /\
  pins st' `suffix_of` pins st.
Proof.
  intros Hlives Hc. unfold checkUserSequence in Hc.
  apply check_from_inv in Hc. destruct ok.
  - destruct (accept_steps_frame _ _ _ _ Hc)
      as [(Hg & Hl & Hli & Hmu & Hm & He & Hr) Hs]. done.
  - destruct Hc as (k & stk & a & str & Hk & Hacc & Hr & Ha & ->).
    destruct (accept_steps_frame _ _ _ _ Hacc) as [F1 S1].
    destruct (read_input_spec _ _ _ Hr) as (F2 & S2 & _).
    destruct (frame_trans _ _ _ F1 F2) as (Hg & Hl & Hli & Hmu & Hm & He & Hrn).
    cbn. rewrite Hli, to_byte_small by lia.
    splits; try assumption; [reflexivity | etrans; eassumption].
Qed.

Lemma loop_changes st st' :
  wf st -> loop st = Running st' ->
  lives st <> 0 /\
  Level st' = Z.min (Level st + 1) 99 /\
  (lives st' = lives st \/ lives st' = lives st - 1) /\
  sequence st `prefix_of` sequence st' /\
  eeprom st' = eeprom st /\ currentMode st' = currentMode st /\
  isMuted st' = isMuted st /\ pins st' `suffix_of` pins st.
Proof.
  intros (Hlen & HL & Hli & _). unfold loop.
  destruct (Z.eqb_spec (lives st) 0) as [| Hne]; [discriminate |].
  destruct (extend_fields st HL) as (Eg & El & Eli & Emu & Em & Ee & Ep & _).
  destruct (extend_sequence st Hlen HL) as (_ & _ & Happ & Hcap).
  destruct (quiet_playSequence (extend st))
    as [(Pg & Pl & Pli & Pmu & Pm & Pe & _) Pp].
  destruct (checkUserSequence _) as [[ok st1]|] eqn:Hc; [| discriminate].
  intros [= <-].
  apply checkUserSequence_keeps in Hc
    as (Cg & Cl & Cmu & Cm & Ce & _ & Cli & Cs); [| lia].
  assert (Hq : quiet st1 (report_status (if negb ok then report_wrong st1
                                         else report_correct st1))).
  { eapply quiet_trans; [| apply quiet_report_status].
    destruct ok; [apply quiet_report_correct | apply quiet_report_wrong]. }
  destruct Hq as [(Qg & Ql & Qli & Qmu & Qm & Qe & _) Qp].
  split; [exact Hne |]. split; [congruence |].
  split; [destruct ok; [left | right]; congruence |].
  split.
  - assert (Hseq : sequence (report_status (if negb ok then report_wrong st1
                                            else report_correct st1))
                   = sequence (extend st))
      by (unfold sequence; congruence).
    rewrite Hseq. destruct (Z_lt_dec (Level st) 99) as [Hlt | Hge].
    + rewrite Happ by assumption. now apply prefix_app_r.
    + destruct (Hcap ltac:(lia)) as (_ & Heq & _). now rewrite Heq.
  - splits; congruence.
Qed.

(** X3.  Every call of loop() that returns has grown the sequence by one
    colour (up to Level 99), whether the attempt succeeded or failed: a
    failed round is not replayed.  The lives stay or go down by one, what
    was in the sequence stays, and the high score in the EEPROM, the mode
    and the mute flag are not touched. *)
Theorem loop_round (st st' : state) :
  wf st -> loop st = Running st' ->
  wf st' /\
  lives st <> 0 /\
  Level st' = Z.min (Level st + 1) 99 /\
  (lives st' = lives st \/ lives st' = lives st - 1) /\
  sequence st `prefix_of` sequence st' /\
  eeprom st' = eeprom st /\ currentMode st' = currentMode st /\
  isMuted st' = isMuted st /\ pins st' `suffix_of` pins st.
Proof.
  intros Hwf Hloop. split; [exact (proj1 (loop_wf _ _ Hwf Hloop)) |].
  now apply loop_changes.
Qed.

Lemma loop_round_witness :
  exists st',
    loop (power_on CLASSIC false ∅ (press 2 0) [6]) = Running st' /\
    Level st' = 1 /\ sequence st' = [2].
Proof.
  eexists. split; [vm_compute; reflexivity |].
  match goal with
  | |- Level ?s = _ /\ _ =>
      destruct (loop_round (power_on CLASSIC false ∅ (press 2 0) [6]) s)
        as (_ & _ & HL & _)
  end.
  - apply booted_wf. repeat split.
  - vm_compute. reflexivity.
  - split; [rewrite HL; reflexivity | reflexivity].
Defined.

Lemma run_invariant n : forall st0 st,
  booted st0 -> run n st0 = Running st ->
  wf st /\ Level st = Z.min (Z.of_nat n) 99 /\
  3 - Z.of_nat n <= lives st <= 3 /\
  eeprom st = eeprom st0 /\ currentMode st = currentMode st0 /\
  isMuted st = isMuted st0.
Proof.
  unfold run. induction n as [|n IH]; intros st0 st Hboot; simpl.
  - intros [= <-]. pose proof (booted_wf _ Hboot) as Hwf.
    destruct Hboot as (_ & HL & Hli). splits; try done; lia.
  - intros Hs. apply step_running in Hs as (st1 & Hrun & Hloop).
    destruct (IH _ _ Hboot Hrun) as (Hwf & HL & Hli & He & Hm & Hmu).
    destruct (loop_changes _ _ Hwf Hloop)
      as (_ & HL' & Hli' & _ & He' & Hm' & Hmu' & _).
    destruct (loop_wf _ _ Hwf Hloop) as [Hwf' _].
    split; [exact Hwf' |]. destruct Hwf' as (W1 & W2 & W3 & W4).
    splits; try congruence; lia.
Qed.

(** X4.  From power-on, whatever the player does: after n calls of
    loop() that returned, Level is min(n, 99); the array has its 100
    cells and holds colours 0..3 only; lives are between 3 - n and 3 and
    never below 0 (the byte never wraps); and the stored high score, the
    mode and the mute flag are the ones the game started with. *)
Theorem run_keeps (st0 : state) (n : nat) (st : state) :
  booted st0 -> run n st0 = Running st ->
  length (gameSequence st) = 100%nat /\
  Forall (fun c => 0 <= c <= 3) (gameSequence st) /\
  Level st = Z.min (Z.of_nat n) 99 /\
  0 <= lives st <= 3 /\ 3 - Z.of_nat n <= lives st /\
  eeprom st = eeprom st0 /\ currentMode st = currentMode st0 /\
  isMuted st = isMuted st0.
Proof.
  intros Hboot Hrun.
  destruct (run_invariant n st0 st Hboot Hrun)
    as ((W1 & W2 & W3 & W4) & HL & Hli & He & Hm & Hmu).
  splits; try assumption; try lia.
Qed.

Lemma run_keeps_witness :
  exists st,
    run 2 (power_on SPEED true ∅ (press 1 0) [1; 2]) = Running st /\
    Level st = 2 /\ lives st = 2.
Proof.
  eexists. split; [vm_compute; reflexivity |].
  match goal with
  | |- Level ?s = _ /\ _ =>
      destruct (run_keeps (power_on SPEED true ∅ (press 1 0) [1; 2]) 2 s)
        as (_ & _ & HL & _)
  end.
  - repeat split.
  - vm_compute. reflexivity.
  - split; [rewrite HL; reflexivity | reflexivity].
Defined.

(** ** The reader with the countdown *)

(** X5.  The scan of readButtonsWithCountdown ends, whatever is pressed
    and whenever, in one of two ways.  With 255 once the countdown is
    over: the deadline is only looked at between two scans, so this comes
    at least [ct] and less than [ct + 90] ms after the call (four
    debounce waits of 20 ms and the 10 ms pause).  Or with a button
    (0..3) read closed at its poll and at the re-poll: the last scan may
    begin just before the deadline, so the second read [stc] comes less
    than [ct + 20 * (button + 1)] ms after the call; what is returned is
    the state after the wait for the release that follows, on which
    there is no deadline.  The globals are not touched. *)
Theorem countdown_reader (ct : Z) (st : state) :
  0 <= ct <= 4294967196 ->
  exists a str,
    readButtonsWithCountdown ct st = Some (a, str) /\
    frame st str /\ pins str `suffix_of` pins st /\
    (a = 255 /\ ct <= to_ulong (clock str - clock st) < ct + 90 \/
     0 <= a <= 3 /\ closed_twice a (pins st) /\
     exists stc,
       to_ulong (clock stc - clock st) < ct + 20 * (a + 1) /\
       str = wait_release (buttonPins_at a) stc).
Proof.
  intros Hct.
  destruct (readButtonsWithCountdown_spec ct st Hct)
    as (a & str & Hrun & Hf & Hs & Hres & _).
  exists a, str. splits; try assumption.
  unfold readButtonsWithCountdown, millis in Hrun.
  destruct Hres as [[Hr Hcl] | [-> Hel]].
  - right. split; [exact Hr |]. split; [exact Hcl |].
    destruct (countdown_loop_confirm _ _ _ _ _ _ _ Hct Hrun ltac:(lia))
      as (stc & Hstr & Hlt).
    exists stc. split; [exact Hlt | exact Hstr].
  - left. split; [reflexivity |]. split; [exact Hel |].
    eapply countdown_loop_late; [exact Hct | | exact Hrun].
    rewrite Z.sub_diag. unfold to_ulong. rewrite Z.mod_0_l; lia.
Qed.

Lemma countdown_reader_witness :
  exists a str,
    readButtonsWithCountdown 3000
      (playing SPEED false [2] ([[2]] ++ press 1 400))
    = Some (a, str) /\
    (a = 255 /\
     3000 <= to_ulong (clock str
                - clock (playing SPEED false [2] ([[2]] ++ press 1 400)))
          < 3090 \/
     0 <= a <= 3 /\
     exists stc,
       to_ulong (clock stc
                 - clock (playing SPEED false [2] ([[2]] ++ press 1 400)))
         < 3000 + 20 * (a + 1) /\
       str = wait_release (buttonPins_at a) stc).
Proof.
  destruct (countdown_reader 3000
              (playing SPEED false [2] ([[2]] ++ press 1 400)) ltac:(lia))
    as (a & str & Hr & _ & _ & Hres).
  exists a, str. split; [exact Hr |].
  destruct Hres as [H | (Ha & _ & H)]; [left; exact H | right].
  split; [exact Ha | exact H].
Defined.

(** ** Waiting for the player *)

(** X7.  In the other modes there is no timeout: when no button is ever
    seen closed at a poll and at the re-poll, loop() plays the sequence
    and then waits for ever.  No life is lost by waiting. *)
Theorem blocking_modes_wait (st : state) :
  currentMode st <> SPEED -> lives st <> 0 -> 0 <= Level st <= 99 ->
  bounce_only (pins st) = true ->
  loop st = Blocked /\
  forall fuel,
    readButtonsDebounced_fuel fuel (playSequence (extend st)) = None.
Proof.
  intros Hm Hli HL Hb.
  destruct (extend_fields st HL) as (_ & El & _ & _ & Em & _ & Ep & _).
  destruct (quiet_playSequence (extend st)) as [(_ & Pl & _ & _ & Pm & _) Pp].
  assert (Hb' : bounce_only (pins (playSequence (extend st))) = true)
    by (rewrite Pp, Ep; exact Hb).
  split; [| intros fuel; now apply readButtonsDebounced_bounce].
  unfold loop. destruct (Z.eqb_spec (lives st) 0); [done |].
  unfold checkUserSequence.
  replace (Z.to_nat (Level (playSequence (extend st))))
    with (S (Z.to_nat (Level (playSequence (extend st))) - 1)) by lia.
  cbn [check_from]. unfold read_input.
  destruct (GameMode_eqb (currentMode (playSequence (extend st))) SPEED) eqn:E.
  - apply GameMode_eqb_eq in E. congruence.
  - unfold readButtonsDebounced.
    now rewrite readButtonsDebounced_bounce.
Qed.

Lemma blocking_modes_wait_witness :
  loop (power_on STEALTH false ∅ [[1]; []; [1; 2]; [3]] [5]) = Blocked.
Proof.
  apply (blocking_modes_wait
           (power_on STEALTH false ∅ [[1]; []; [1; 2]; [3]] [5]));
    [discriminate | discriminate | simpl; lia | reflexivity].
Defined.

(** ** A Speed game in which nothing is pressed *)

Lemma loop_speed_idle st :
  currentMode st = SPEED -> wf st -> lives st <> 0 ->
  bounce_only (pins st) = true ->
  exists st',
    loop st = Running st' /\ wf st' /\ currentMode st' = SPEED /\
    lives st' = lives st - 1 /\ Level st' = Z.min (Level st + 1) 99 /\
    eeprom st' = eeprom st /\ bounce_only (pins st') = true.
Proof.
  intros Hm Hwf Hli Hb. pose proof Hwf as (_ & HL & Hlives & _).
  destruct (extend_fields st HL) as (_ & El & Eli & _ & Em & _ & Ep & _).
  destruct (quiet_playSequence (extend st)) as [(_ & Pl & Pli & _ & Pm & _) Pp].
  destruct (readButtonsWithCountdown_spec 3000 (playSequence (extend st))
              ltac:(lia)) as (a & str & Hrun & _ & _ & _ & Hbo).
  destruct Hbo as [-> Hbs]; [rewrite Pp, Ep; exact Hb |].
  assert (Hread : read_input (playSequence (extend st)) = Some (255, str)).
  { unfold read_input. rewrite Pm, Em, Hm. exact Hrun. }
  destruct (checkUserSequence_rejected (playSequence (extend st)) 0
              (playSequence (extend st)) 255 str
              ltac:(lia) ltac:(lia) eq_refl Hread (or_introl eq_refl))
    as [Hc _].
  destruct (loop_running st false _ Hli Hc) as (st' & Hloop & Hq).
  destruct (loop_wf _ _ Hwf Hloop) as [Hwf' _].
  destruct (loop_changes _ _ Hwf Hloop) as (_ & HL' & _ & _ & He' & Hm' & _).
  destruct Hq as [(_ & _ & Qli & _) Qp]. cbn in Qli, Qp.
  exists st'. splits; try assumption; congruence.
Qed.

Lemma showGameOver_read st :
  1 <= Level st <= 99 ->
  EEPROM_read highScoreAddress (showGameOver st) =
  if (EEPROM_read highScoreAddress st =? 255)
     || (Level st - 1 >? EEPROM_read highScoreAddress st)
  then Level st - 1 else EEPROM_read highScoreAddress st.
Proof.
  intros HL.
  destruct (gameOverScreen_spec st HL) as [[(_ & _ & _ & _ & _ & Hee & _) _] _].
  destruct (showGameOver_out st HL) as [_ [(_ & _ & _ & _ & _ & He & _) _]].
  etrans; [apply EEPROM_read_eeprom, He |].
  etrans; [apply updateHighScore_read |].
  now rewrite (EEPROM_read_eeprom highScoreAddress _ _ Hee).
Qed.

(** X8.  A Speed game in which no press is ever confirmed is over after
    exactly three calls of loop(): each round times out and costs a life,
    and the fourth call halts in showGameOver.  Level is 3 by then, so
    the score shown and offered to the high score is 2, although no round
    was completed. *)
Theorem speed_idle_game_over (st0 : state) :
  booted st0 -> currentMode st0 = SPEED -> bounce_only (pins st0) = true ->
  exists st,
    run 3 st0 = Running st /\ lives st = 0 /\ Level st = 3 /\
    (forall m, run (3 + S m) st0 = Halted (showGameOver st)) /\
    EEPROM_read highScoreAddress (showGameOver st) =
      if (EEPROM_read highScoreAddress st0 =? 255)
         || (2 >? EEPROM_read highScoreAddress st0)
      then 2 else EEPROM_read highScoreAddress st0.
Proof.
  intros Hboot Hm Hb. pose proof (booted_wf _ Hboot) as Hwf.
  destruct Hboot as (_ & HL0 & Hli0).
  destruct (loop_speed_idle st0 Hm Hwf ltac:(lia) Hb)
    as (st1 & Hl1 & Hwf1 & Hm1 & Hli1 & HL1 & He1 & Hb1).
  destruct (loop_speed_idle st1 Hm1 Hwf1 ltac:(lia) Hb1)
    as (st2 & Hl2 & Hwf2 & Hm2 & Hli2 & HL2 & He2 & Hb2).
  destruct (loop_speed_idle st2 Hm2 Hwf2 ltac:(lia) Hb2)
    as (st3 & Hl3 & Hwf3 & Hm3 & Hli3 & HL3 & He3 & Hb3).
  assert (Hrun : run 3 st0 = Running st3).
  { change (run 3 st0) with (step (step (step (Running st0)))).
    cbn [step]. rewrite Hl1. cbn [step]. rewrite Hl2. exact Hl3. }
  assert (Hlives : lives st3 = 0) by lia.
  assert (HLevel : Level st3 = 3) by lia.
  exists st3. splits; try assumption.
  - intros m. rewrite run_add, Hrun. rewrite Nat.iter_succ_r. cbn [step].
    unfold loop. rewrite Hlives. cbn [Z.eqb]. apply step_halted.
  - rewrite showGameOver_read by lia. rewrite HLevel.
    assert (Hh : EEPROM_read highScoreAddress st3
                 = EEPROM_read highScoreAddress st0)
      by (apply EEPROM_read_eeprom; congruence).
    now rewrite Hh.
Qed.

Lemma speed_idle_game_over_witness :
  exists st,
    run 3 (power_on SPEED false ∅ [[0]; []; [0; 3]] [7; 7; 7]) = Running st /\
    run 9 (power_on SPEED false ∅ [[0]; []; [0; 3]] [7; 7; 7])
      = Halted (showGameOver st) /\
    EEPROM_read highScoreAddress (showGameOver st) = 2.
Proof.
  destruct (speed_idle_game_over
              (power_on SPEED false ∅ [[0]; []; [0; 3]] [7; 7; 7]))
    as (st & Hrun & _ & _ & Hhalt & He); [repeat split | reflexivity ..|].
  exists st. split; [exact Hrun |]. split; [exact (Hhalt 5%nat) | exact He].
Defined.

(** ** Entering the sequence correctly *)

Lemma poll_buttons_press st i held rest :
  0 <= i <= 3 -> pins st = press i held ++ rest ->
  poll_buttons 4 0 st = (Some i, set_pins rest (delay 20 st)).
Proof.
  intros Hi Hp.
  apply (poll_buttons_hold st i
           (replicate (Z.to_nat i) [buttonPins_at i])
           [buttonPins_at i] [buttonPins_at i]
           (replicate held [buttonPins_at i]) [] rest);
    try done.
  - now rewrite length_replicate.
  - now apply passes_press.
  - apply is_low_self.
  - apply is_low_self.
  - apply Forall_replicate, is_low_self.
  - rewrite Hp. unfold press.
    rewrite !replicate_add, <- !app_assoc. reflexivity.
Qed.

Lemma readButtonsWithCountdown_press ct st i held rest :
  0 < ct -> 0 <= i <= 3 -> pins st = press i held ++ rest ->
  exists str,
    readButtonsWithCountdown ct st = Some (i, str) /\
    frame st str /\ pins str = rest.
Proof.
  intros Hct Hi Hp. unfold readButtonsWithCountdown.
  rewrite countdown_loop_unfold. unfold millis. rewrite Z.sub_diag.
  change (to_ulong 0) with 0.
  destruct (Z.ltb_spec 0 ct) as [_ | ?]; [| lia]. cbv zeta.
  set (remaining := to_int (to_ulong (ct - 0) / 1000)).
  set (st1 := if negb (remaining =? -1)
              then countdown_display remaining st else st).
  assert (Hq : quiet st st1).
  { unfold st1. destruct (negb _);
      [apply quiet_countdown_display | apply quiet_refl]. }
  destruct Hq as [Hf Hp1].
  rewrite (poll_buttons_press st1 i held rest Hi) by (rewrite Hp1; exact Hp).
  eexists. split; [reflexivity |]. split; [| reflexivity].
  eapply frame_trans; [exact Hf |]. repeat split.
Qed.

Lemma read_input_press st i held rest :
  0 <= i <= 3 -> pins st = press i held ++ rest ->
  exists str,
    read_input st = Some (i, str) /\ frame st str /\ pins str = rest.
Proof.
  intros Hi Hp. unfold read_input. destruct (GameMode_eqb _ _).
  - now apply (readButtonsWithCountdown_press 3000 st i held rest).
  - rewrite (readButtonsDebounced_press st i held rest Hi Hp).
    eexists. split; [reflexivity |]. split; [repeat split | reflexivity].
Qed.

Lemma expected_from_frame n : forall i st st',
  frame st st' -> expected_from n i st' = expected_from n i st.
Proof.
  induction n as [|n IH]; intros i st st' Hf; simpl; [reflexivity |].
  now rewrite (expected_at_frame i st st' Hf), (IH _ st st' Hf).
Qed.

Lemma check_from_replay held n : forall i st rest,
  Forall (fun c => 0 <= c <= 3) (expected_from n i st) ->
  pins st = replay held (expected_from n i st) ++ rest ->
  exists st',
    check_from n i st = Some (true, st') /\ frame st st' /\ pins st' = rest.
Proof.
  induction n as [|n IH]; intros i st rest Hall Hp; simpl in *.
  - exists st. split; [reflexivity |]. split; [apply frame_refl | exact Hp].
  - inversion Hall as [|? ? Hc Hall']; subst.
    unfold replay in Hp. simpl in Hp. rewrite <- app_assoc in Hp.
    destruct (read_input_press st (expected_at i st) held _ Hc Hp)
      as (str & -> & Hf & Hps).
    destruct (Z.eqb_spec (expected_at i st) 255) as [E | _]; [lia |].
    rewrite Z.eqb_refl. simpl.
    destruct (quiet_echo (expected_at i st) str) as [Hfe Hpe].
    pose proof (frame_trans _ _ _ Hf Hfe) as Hf2.
    destruct (IH (i + 1) (echo (expected_at i st) str) rest) as (st' & Hc' & Hf' & Hp').
    + now rewrite (expected_from_frame n (i + 1) st _ Hf2).
    + rewrite (expected_from_frame n (i + 1) st _ Hf2), Hpe. exact Hps.
    + exists st'. split; [exact Hc' |]. split; [| exact Hp'].
      eapply frame_trans; eassumption.
Qed.

Lemma expected_from_forward n : forall i st,
  GameMode_eqb (currentMode st) REVERSE = false ->
  0 <= i -> (Z.to_nat i + n <= length (gameSequence st))%nat ->
  expected_from n i st = take n (drop (Z.to_nat i) (gameSequence st)).
Proof.
  induction n as [|n IH]; intros i st Hm Hi Hlen; simpl; [reflexivity |].
  rewrite IH by (try assumption; lia).
  rewrite (drop_S _ (gameSequence_at i st) (Z.to_nat i))
    by (apply gameSequence_at_lookup; lia).
  unfold expected_at. rewrite Hm. simpl.
  now replace (Z.to_nat (i + 1)) with (S (Z.to_nat i)) by lia.
Qed.

Lemma expected_from_backward n : forall i st,
  GameMode_eqb (currentMode st) REVERSE = true ->
  0 <= i -> i + Z.of_nat n <= Level st <= 100 ->
  (Z.to_nat (Level st) <= length (gameSequence st))%nat ->
  expected_from n i st =
  rev (take n (drop (Z.to_nat (Level st - i - Z.of_nat n)) (gameSequence st))).
Proof.
  induction n as [|n IH]; intros i st Hm Hi HL Hlen; simpl expected_from;
    [reflexivity |].
  rewrite IH by (try assumption; lia).
  replace (Level st - (i + 1) - Z.of_nat n)
    with (Level st - i - Z.of_nat (S n)) by lia.
  set (k := Z.to_nat (Level st - i - Z.of_nat (S n))).
  assert (Hlook : drop k (gameSequence st) !! n = Some (expected_at i st)).
  { rewrite lookup_drop. unfold expected_at. rewrite Hm.
    rewrite (to_int_small (Level st - 1)) by lia.
    rewrite (to_int_small (Level st - 1 - i)) by lia.
    replace (k + n)%nat with (Z.to_nat (Level st - 1 - i)) by lia.
    apply gameSequence_at_lookup; lia. }
  rewrite (take_S_r _ _ _ Hlook), rev_app_distr. reflexivity.
Qed.

Lemma expected_from_order st :
  0 <= Level st <= 100 -> (Z.to_nat (Level st) <= length (gameSequence st))%nat ->
  expected_from (Z.to_nat (Level st)) 0 st = expected_order st.
Proof.
  intros HL Hlen. unfold expected_order, sequence.
  destruct (GameMode_eqb (currentMode st) REVERSE) eqn:Hm.
  - rewrite expected_from_backward by (try assumption; lia).
    now replace (Z.to_nat (Level st - 0 - Z.of_nat (Z.to_nat (Level st))))
      with 0%nat by lia.
  - now rewrite expected_from_forward by (try assumption; simpl; lia).
Qed.

(** X9.  In every mode, muted or not: when the player presses the
    colours of the sequence one after the other (last to first in Reverse
    mode), checkUserSequence returns true, no life is lost, and exactly
    these presses are consumed.  How long each button is held does not
    matter. *)
Theorem correct_replay (st : state) (held : nat) (rest : list sample) :
  length (gameSequence st) = 100%nat -> 0 <= Level st <= 100 ->
  Forall (fun c => 0 <= c <= 3) (gameSequence st) ->
  pins st = replay held (expected_order st) ++ rest ->
  exists st',
    checkUserSequence st = Some (true, st') /\
    frame st st' /\ pins st' = rest.
Proof.
  intros Hlen HL Hall Hp.
  rewrite <- expected_from_order in Hp by lia.
  apply (check_from_replay held); [| exact Hp].
  rewrite expected_from_order by lia.
  assert (Hs : Forall (fun c => 0 <= c <= 3) (sequence st))
    by (unfold sequence; now apply Forall_take).
  unfold expected_order. destruct (GameMode_eqb _ _); [| exact Hs].
  now apply Forall_rev.
Qed.

Lemma correct_replay_witness :
  exists st',
    checkUserSequence
      (playing REVERSE true [3; 1; 2] (replay 4 [2; 1; 3] ++ [[0]]))
    = Some (true, st') /\
    lives st' = 3 /\ pins st' = [[0]].
Proof.
  destruct (correct_replay
              (playing REVERSE true [3; 1; 2] (replay 4 [2; 1; 3] ++ [[0]]))
              4 [[0]])
    as (st' & Hc & (_ & _ & Hli & _) & Hp).
  - reflexivity.
  - simpl. lia.
  - vm_compute. repeat (constructor; [split; discriminate |]). constructor.
  - reflexivity.
  - exists st'. split; [exact Hc |]. split; [exact Hli | exact Hp].
Defined.

(** ** How long the playback takes *)

Lemma duration_app a b : duration (a ++ b) = duration a + duration b.
Proof.
  induction a as [|e a IH]; simpl; [reflexivity |].
  destruct e; rewrite ?IH; lia.
Qed.

Lemma duration_cue mode muted c : duration (cue mode muted c) = 300.
Proof. destruct mode, muted; reflexivity. Qed.

Lemma duration_cues mode muted gap l :
  duration (flat_map (fun c => cue mode muted c ++ [Delay gap]) l)
  = Z.of_nat (length l) * (300 + gap).
Proof.
  induction l as [|c l IH]; [reflexivity |].
  cbn [flat_map]. rewrite !duration_app, duration_cue, IH.
  cbn [duration length]. lia.
Qed.

Lemma clock_playSequence_body speed i st start :
  to_ulong (clock (playSequence_body speed i st) - start)
  = to_ulong (to_ulong (clock st - start) + (300 + speed)).
Proof.
  assert (H : clock (playSequence_body speed i st)
              = to_ulong (to_ulong (clock st + 300) + speed))
    by (by_fields st; destruct mo, mu; reflexivity).
  rewrite H, !elapsed_delay, to_ulong_add_l. f_equal. lia.
Qed.

Lemma clock_playSequence_loop speed start n : forall i st,
  to_ulong (clock (for_loop n i (playSequence_body speed) st) - start)
  = to_ulong (to_ulong (clock st - start) + Z.of_nat n * (300 + speed)).
Proof.
  induction n as [|n IH]; intros i st.
  - cbn [for_loop]. rewrite Z.mul_0_l. apply elapsed_same.
  - cbn [for_loop]. rewrite IH, clock_playSequence_body, to_ulong_add_l.
    f_equal. lia.
Qed.

(** X10.  Playing the sequence takes Level * (300 + max(100, 400 -
    Level*10)) ms, in the delays of its trace and on the clock, in every
    mode and muted or not; it reads no button and changes no global. *)
Theorem playSequence_time (st : state) :
  0 <= Level st <= 100 -> length (gameSequence st) = 100%nat ->
  (exists evs,
     out (playSequence st) = out st ++ evs /\
     duration evs = Level st * (300 + Z.max 100 (400 - Level st * 10))) /\
  to_ulong (clock (playSequence st) - clock st)
    = Level st * (300 + Z.max 100 (400 - Level st * 10)) /\
  quiet st (playSequence st).
Proof.
  intros HL Hlen. split; [| split; [| apply quiet_playSequence]].
  - unfold playSequence. rewrite speed_formula by lia.
    rewrite playSequence_loop_out by (simpl; lia).
    eexists. split; [reflexivity |].
    rewrite duration_cues, length_take. change (Z.to_nat 0) with 0%nat.
    rewrite drop_0, Hlen. f_equal. lia.
  - unfold playSequence. rewrite speed_formula by lia.
    rewrite clock_playSequence_loop, Z.sub_diag.
    change (to_ulong 0) with 0. rewrite Z.add_0_l, Z2Nat.id by lia.
    apply to_ulong_small. nia.
Qed.

Lemma playSequence_time_witness :
  to_ulong (clock (playSequence (playing STEALTH true [3; 1; 0] []))
            - clock (playing STEALTH true [3; 1; 0] [])) = 2010.
Proof.
  exact (proj1 (proj2 (playSequence_time (playing STEALTH true [3; 1; 0] [])
                         ltac:(simpl; lia) eq_refl))).
Defined.

(** ** LEDs and speaker between two calls *)

Lemma lit_app acc a b : lit acc (a ++ b) = lit (lit acc a) b.
Proof.
  revert acc. induction a as [|e a IH]; intros acc; [reflexivity |].
  destruct e as [p [|]| | | | | | | |]; simpl; apply IH.
Qed.

Lemma sounding_app acc a b :
  sounding acc (a ++ b) = sounding (sounding acc a) b.
Proof.
  revert acc. induction a as [|e a IH]; intros acc; [reflexivity |].
  destruct e; simpl; apply IH.
Qed.

Lemma quiescent_nil : quiescent [].
Proof. split; reflexivity. Qed.

Lemma quiescent_app a b : quiescent a -> quiescent b -> quiescent (a ++ b).
Proof.
  intros [La Sa] [Lb Sb]. split.
  - now rewrite lit_app, La.
  - now rewrite sounding_app, Sa.
Qed.

Lemma settles_refl st : settles st st.
Proof. exists []. split; [now rewrite app_nil_r | apply quiescent_nil]. Qed.

Lemma settles_trans a b c : settles a b -> settles b c -> settles a c.
Proof.
  intros (e1 & H1 & Q1) (e2 & H2 & Q2). exists (e1 ++ e2). split.
  - now rewrite H2, H1, app_assoc.
  - now apply quiescent_app.
Qed.

Lemma settles_same a b : out b = out a -> settles a b.
Proof.
  intros H. exists []. split; [now rewrite app_nil_r | apply quiescent_nil].
Qed.

Lemma settles_quiescent st st' :
  quiescent (out st) -> settles st st' -> quiescent (out st').
Proof. intros Hq (evs & -> & He). now apply quiescent_app. Qed.

Lemma settles_for_loop body :
  (forall i st, settles st (body i st)) ->
  forall n i st, settles st (for_loop n i body st).
Proof.
  intros Hb n. induction n as [|n IH]; intros i st; simpl.
  - apply settles_refl.
  - eapply settles_trans; [apply Hb | apply IH].
Qed.

(** The log of a function given by its output calls, on a state given
    by its fields: the new events are read off and evaluated. *)
Ltac settle :=
  cbn; eexists; split;
  [ rewrite <- ?app_assoc; reflexivity
  | split; cbn [lit sounding List.filter app]; rewrite ?Z.eqb_refl;
    reflexivity ].

Lemma settles_delay d st : settles st (delay d st).
Proof. unfold settles. by_fields st. settle. Qed.

Lemma settles_lightLedAndPlayTone c st : settles st (lightLedAndPlayTone c st).
Proof. unfold settles. by_fields st. destruct mu; settle. Qed.

Lemma settles_playToneOnly c st : settles st (playToneOnly c st).
Proof. unfold settles. by_fields st. destruct mu; settle. Qed.

Lemma settles_echo c st : settles st (echo c st).
Proof.
  unfold echo. destruct (GameMode_eqb _ _);
    [apply settles_playToneOnly | apply settles_lightLedAndPlayTone].
Qed.

Lemma settles_playSequence st : settles st (playSequence st).
Proof.
  apply settles_for_loop. intros i s. unfold settles. by_fields s.
  destruct mo, mu; settle.
Qed.

Lemma settles_playMistakeSound st : settles st (playMistakeSound st).
Proof. unfold settles. by_fields st. destruct mu; settle. Qed.

Lemma settles_flashAllLEDsSync times d st :
  settles st (flashAllLEDsSync times d st).
Proof.
  apply settles_for_loop. intros _ s. unfold settles. by_fields s.
  eexists. split; [rewrite <- ?app_assoc; reflexivity | split; reflexivity].
Qed.

Lemma settles_celebrateCorrectSequence st :
  settles st (celebrateCorrectSequence st).
Proof.
  apply settles_for_loop. intros i s. unfold settles. by_fields s.
  destruct mu; settle.
Qed.

Lemma settles_report_status st : settles st (report_status st).
Proof. unfold settles. by_fields st. settle. Qed.

Lemma settles_report_wrong st : settles st (report_wrong st).
Proof.
  unfold report_wrong, lcd_clear, lcd_setCursor, lcd_print, lcd_print_num.
  cbv zeta.
  assert (He : forall e s, is_light e = false -> is_tone e = false ->
                 settles s (emit e s)).
  { intros e s H1 H2. exists [e]. split; [reflexivity |].
    destruct e; try discriminate; split; reflexivity. }
  eapply settles_trans; [| apply settles_delay].
  do 3 (eapply settles_trans; [| apply He; reflexivity]).
  cbn [lives emit]. destruct (lives st >? 0).
  - eapply settles_trans; [| apply settles_flashAllLEDsSync].
    eapply settles_trans; [| apply settles_playMistakeSound].
    do 2 (eapply settles_trans; [| apply He; reflexivity]).
    apply He; reflexivity.
  - do 2 (eapply settles_trans; [| apply He; reflexivity]).
    apply He; reflexivity.
Qed.

Lemma settles_report_correct st : settles st (report_correct st).
Proof.
  unfold report_correct. cbv zeta.
  eapply settles_trans; [| apply settles_delay].
  eapply settles_trans; [| apply settles_celebrateCorrectSequence].
  unfold settles. by_fields st. settle.
Qed.

Lemma settles_try_button i st hit st' :
  try_button i st = (hit, st') -> settles st st'.
Proof.
  intros H. destruct (try_button_spec _ _ _ _ H) as (_ & _ & (d & _ & Ho & _) & _).
  exists (if d =? 0 then [] else [Delay 20]). split; [exact Ho |].
  destruct (d =? 0); split; reflexivity.
Qed.

Lemma settles_poll_buttons n : forall i st r st',
  poll_buttons n i st = (r, st') -> settles st st'.
Proof.
  induction n as [|n IH]; intros i st r st'.
  - intros [= _ <-]. apply settles_refl.
  - rewrite poll_buttons_S. destruct (try_button i st) as [hit st1] eqn:Et.
    pose proof (settles_try_button _ _ _ _ Et) as H1. destruct hit.
    + now intros [= _ <-].
    + intros H. eapply settles_trans; [exact H1 | eapply IH, H].
Qed.

Lemma settles_readButtonsDebounced_fuel fuel : forall st a st',
  readButtonsDebounced_fuel fuel st = Some (a, st') -> settles st st'.
Proof.
  induction fuel as [|fuel IH]; intros st a st'; [discriminate |].
  cbn [readButtonsDebounced_fuel].
  destruct (poll_buttons 4 0 st) as [[k|] st1] eqn:Ep;
    pose proof (settles_poll_buttons _ _ _ _ _ Ep) as H1.
  - now intros [= _ <-].
  - intros H. eapply settles_trans; [exact H1 |].
    eapply settles_trans; [apply settles_delay | eapply IH, H].
Qed.

Lemma settles_countdown_display r st : settles st (countdown_display r st).
Proof. unfold settles. by_fields st. settle. Qed.

Lemma settles_countdown_loop fuel : forall ct start last st a st',
  countdown_loop fuel ct start last st = Some (a, st') -> settles st st'.
Proof.
  induction fuel as [|fuel IH]; intros ct start last st a st';
    rewrite countdown_loop_unfold;
    destruct (_ <? _); try discriminate;
    try (intros [= _ <-]; apply settles_refl).
  cbv zeta.
  set (remaining := to_int (to_ulong (ct - to_ulong (millis st - start)) / 1000)).
  set (st1 := if negb (remaining =? last)
              then countdown_display remaining st else st).
  assert (H0 : settles st st1).
  { unfold st1. destruct (negb _);
      [apply settles_countdown_display | apply settles_refl]. }
  destruct (poll_buttons 4 0 st1) as [[k|] st2] eqn:Ep;
    pose proof (settles_poll_buttons _ _ _ _ _ Ep) as H1.
  - intros [= _ <-]. eapply settles_trans; eassumption.
  - intros H. eapply settles_trans; [exact H0 |].
    eapply settles_trans; [exact H1 |].
    eapply settles_trans; [apply settles_delay | eapply IH, H].
Qed.

Lemma settles_read_input st a st' :
  read_input st = Some (a, st') -> settles st st'.
Proof.
  unfold read_input. destruct (GameMode_eqb _ _).
  - apply settles_countdown_loop.
  - apply settles_readButtonsDebounced_fuel.
Qed.

Lemma settles_check_from n : forall i st ok st',
  check_from n i st = Some (ok, st') -> settles st st'.
Proof.
  induction n as [|n IH]; intros i st ok st'; simpl.
  - intros [= _ <-]. apply settles_refl.
  - destruct (read_input st) as [[a st1]|] eqn:Er; [| discriminate].
    pose proof (settles_read_input _ _ _ Er) as H1.
    destruct (_ || _).
    + intros [= _ <-]. eapply settles_trans; [exact H1 |].
      now apply settles_same.
    + intros H. eapply settles_trans; [exact H1 |].
      eapply settles_trans; [apply settles_echo | eapply IH, H].
Qed.

Lemma settles_gameOverScreen st : settles st (gameOverScreen st).
Proof.
  unfold settles. destruct st as [gs lv li mu mo ee pi rn cl ou].
  destruct mu; run_output;
    (eexists; split;
     [rewrite <- !app_assoc; reflexivity | split; vm_compute; reflexivity]).
Qed.

Lemma settles_showGameOver st : settles st (showGameOver st).
Proof.
  eapply settles_trans; [apply settles_gameOverScreen |].
  unfold showGameOver. cbv zeta.
  generalize (to_byte (to_int (Level (gameOverScreen st) - 1))).
  generalize (gameOverScreen st). intros s z.
  assert (Hu : settles s (updateHighScore z s)).
  { unfold updateHighScore. destruct (_ || _); [| apply settles_refl].
    exists [EepromWrite highScoreAddress z]. split; [reflexivity |].
    split; reflexivity. }
  eapply settles_trans; [exact Hu |].
  generalize (EEPROM_read highScoreAddress (updateHighScore z s)).
  generalize (updateHighScore z s). intros s' h.
  unfold settles. by_fields s'. settle.
Qed.

(** X11.  Between two calls of loop() every LED is off and the speaker
    is silent: if that is so when loop() starts, it is so again when
    loop() returns, and also when it halts in showGameOver, whatever the
    mode, the mute flag and the input. *)
Theorem loop_settles (st st' : state) :
  quiescent (out st) ->
  loop st = Running st' \/ loop st = Halted st' ->
  quiescent (out st').
Proof.
  intros Hq Hl. apply (settles_quiescent st st' Hq).
  unfold loop in Hl. destruct (lives st =? 0).
  - destruct Hl as [Hl | Hl]; [discriminate |]. injection Hl as <-.
    apply settles_showGameOver.
  - destruct (checkUserSequence _) as [[ok st1]|] eqn:Hc;
      [| destruct Hl; discriminate].
    destruct Hl as [Hl | Hl]; [| discriminate]. injection Hl as <-.
    assert (He : settles st (extend st)).
    { apply settles_same. unfold extend, random.
      destruct (rnd st); cbn; now destruct (_ >=? _). }
    eapply settles_trans; [exact He |].
    eapply settles_trans; [apply settles_playSequence |].
    eapply settles_trans; [eapply settles_check_from, Hc |].
    eapply settles_trans; [| apply settles_report_status].
    destruct ok; [apply settles_report_correct | apply settles_report_wrong].
Qed.

Lemma loop_settles_witness :
  exists st',
    loop (power_on CLASSIC false ∅ (press 2 0) [6]) = Running st' /\
    quiescent (out st').
Proof.
  eexists. split; [vm_compute; reflexivity |].
  match goal with
  | |- quiescent (out ?s) =>
      apply (loop_settles (power_on CLASSIC false ∅ (press 2 0) [6]) s)
  end.
  - split; reflexivity.
  - left. vm_compute. reflexivity.
Defined.

(** ** Start-up: the mute toggle *)

(** X12.  checkForMuteToggle polls the green button once, 1500 ms after
    its prompt, without debouncing: the sound is muted if the button
    reads closed at that moment, and a flag that is already set stays
    set.  It reads that one sample and changes nothing else. *)
Theorem mute_toggle (st : state) :
  isMuted (checkForMuteToggle st)
    = isMuted st || next_low (buttonPins_at 1) (pins st) /\
  pins (checkForMuteToggle st) = tail (pins st) /\
  gameSequence (checkForMuteToggle st) = gameSequence st /\
  Level (checkForMuteToggle st) = Level st /\
  lives (checkForMuteToggle st) = lives st /\
  currentMode (checkForMuteToggle st) = currentMode st /\
  eeprom (checkForMuteToggle st) = eeprom st /\
  rnd (checkForMuteToggle st) = rnd st /\
  clock (checkForMuteToggle st)
    = to_ulong (to_ulong (clock st + 1500) + 1000) /\
  settles st (checkForMuteToggle st).
Proof.
  unfold settles, checkForMuteToggle, digitalRead. by_fields st.
  destruct pi as [|s r]; cbn.
  - rewrite orb_false_r. splits; try reflexivity. settle.
  - destruct (is_low s (buttonPins_at 1)); cbn;
      rewrite ?orb_true_r, ?orb_false_r; splits; try reflexivity; settle.
Qed.

(** ** Start-up: the mode *)

Lemma mode_selected_spec i st :
  currentMode (mode_selected i st) = GameMode_of i /\
  gameSequence (mode_selected i st) = gameSequence st /\
  Level (mode_selected i st) = Level st /\
  lives (mode_selected i st) = lives st /\
  isMuted (mode_selected i st) = isMuted st /\
  eeprom (mode_selected i st) = eeprom st /\
  rnd (mode_selected i st) = rnd st /\
  pins (mode_selected i st) = pins st /\
  settles st (mode_selected i st).
Proof.
  unfold settles, mode_selected.
  generalize (GameMode_of i) (mode_name i). intros m name.
  by_fields st. destruct m, mu; cbn; splits; try reflexivity; settle.
Qed.

Lemma GameMode_of_modes i :
  0 <= i <= 3 -> modes !! Z.to_nat i = Some (GameMode_of i).
Proof.
  intros Hi. assert (Hc : i = 0 \/ i = 1 \/ i = 2 \/ i = 3) by lia.
  destruct Hc as [-> | [-> | [-> | ->]]]; reflexivity.
Qed.

Lemma showModeSelection_fuel_spec fuel : forall st st',
  showModeSelection_fuel fuel st = Some st' ->
  exists i st1,
    0 <= i <= 3 /\ closed_twice i (pins st) /\
    st' = mode_selected i st1 /\ frame st st1 /\
    pins st1 `suffix_of` pins st /\ settles st st1.
Proof.
  induction fuel as [|fuel IH]; intros st st'; [discriminate |].
  cbn [showModeSelection_fuel].
  destruct (poll_buttons 4 0 st) as [[k|] st1] eqn:Ep;
    pose proof (settles_poll_buttons _ _ _ _ _ Ep) as Hset;
    destruct (poll_buttons_spec _ _ _ _ _ Ep) as (Hf & Hs & _ & Hj & _).
  - intros [= <-]. destruct (Hj k eq_refl) as [Hr Hc].
    exists k, st1. splits; try done; lia.
  - intros H. destruct (IH _ _ H) as (i & st2 & Hi & Hc & -> & Hf2 & Hs2 & Hset2).
    exists i, st2. split; [exact Hi |]. splits; try reflexivity.
    + eapply closed_twice_suffix; eassumption.
    + eapply frame_trans; eassumption.
    + etrans; eassumption.
    + eapply settles_trans; eassumption.
Qed.

Lemma showModeSelection_fuel_mono fuel : forall fuel' st r,
  showModeSelection_fuel fuel st = Some r -> (fuel <= fuel')%nat ->
  showModeSelection_fuel fuel' st = Some r.
Proof.
  induction fuel as [|fuel IH]; intros fuel' st r; simpl; [discriminate |].
  intros Hr Hle. destruct fuel' as [|fuel']; [lia |]. simpl.
  destruct (poll_buttons 4 0 st) as [[k|] st1]; [assumption |].
  apply IH; [assumption | lia].
Qed.

Lemma showModeSelection_fuel_idle fuel : forall st,
  pins st = [] -> showModeSelection_fuel fuel st = None.
Proof.
  induction fuel as [|fuel IH]; intros st Hp; simpl; [reflexivity |].
  destruct (poll_buttons 4 0 st) as [[k|] st1] eqn:Ep;
    destruct (poll_buttons_spec _ _ _ _ _ Ep) as (_ & _ & _ & Hj & _ & Hnil & _).
  - destruct (Hj k eq_refl) as [_ (pre & s1 & s2 & post & Hl & _)].
    rewrite Hp in Hl. now destruct pre.
  - apply IH. rewrite (Hnil eq_refl Hp). exact Hp.
Qed.

(** The fuel of [showModeSelection] is enough. *)
Lemma showModeSelection_adequate fuel : forall st r,
  showModeSelection_fuel fuel st = Some r ->
  showModeSelection_fuel (S (length (pins st))) st = Some r.
Proof.
  induction fuel as [|fuel IH]; intros st r; [discriminate |].
  cbn [showModeSelection_fuel].
  destruct (poll_buttons 4 0 st) as [[k|] st1] eqn:Ep; [done |].
  intros Hr. destruct (pins st) as [|s l] eqn:Hp.
  - rewrite showModeSelection_fuel_idle in Hr; [discriminate |].
    destruct (poll_buttons_spec _ _ _ _ _ Ep) as (_ & _ & _ & _ & _ & Hnil & _).
    now rewrite (Hnil eq_refl Hp).
  - destruct (poll_buttons_spec _ _ _ _ _ Ep) as (_ & _ & _ & _ & Hlen & _).
    specialize (Hlen eq_refl ltac:(lia) ltac:(congruence)).
    rewrite Hp in Hlen. simpl in Hlen.
    eapply showModeSelection_fuel_mono; [apply (IH _ _ Hr) |].
    cbn [length]. lia.
Qed.

Lemma showModeSelection_fuel_bounce fuel : forall st,
  bounce_only (pins st) = true -> showModeSelection_fuel fuel st = None.
Proof.
  induction fuel as [|fuel IH]; intros st Hb; simpl; [reflexivity |].
  destruct (poll_buttons 4 0 st) as [r st1] eqn:Ep.
  destruct (poll_buttons_spec _ _ _ _ _ Ep) as (_ & _ & _ & _ & _ & _ & Hbo).
  destruct (Hbo Hb) as [-> Hb1]. now apply IH.
Qed.

Lemma showModeSelection_returns st st' :
  showModeSelection st = Some st' ->
  exists i,
    0 <= i <= 3 /\ closed_twice i (pins st) /\
    modes !! Z.to_nat i = Some (currentMode st') /\
    gameSequence st' = gameSequence st /\ Level st' = Level st /\
    lives st' = lives st /\ isMuted st' = isMuted st /\
    eeprom st' = eeprom st /\ rnd st' = rnd st /\
    pins st' `suffix_of` pins st /\ settles st st'.
Proof.
  unfold showModeSelection. cbv zeta.
  set (stp := lcd_print "Y:C G:S R:R B:St" _).
  assert (Hq : quiet st stp) by (unfold stp; by_fields st; repeat split).
  assert (Hset : settles st stp)
    by (unfold stp, settles; by_fields st; settle).
  destruct Hq as [(Pg & Pl & Pli & Pmu & Pm & Pe & Pr) Pp].
  intros H. apply showModeSelection_fuel_spec in H
    as (i & st1 & Hi & Hc & -> & (Fg & Fl & Fli & Fmu & Fm & Fe & Fr) & Hs & Hset1).
  destruct (mode_selected_spec i st1)
    as (Mm & Mg & Ml & Mli & Mmu & Me & Mr & Mp & Mset).
  exists i. rewrite Pp in Hc, Hs.
  splits; try congruence; try lia.
  - rewrite Mm. now apply GameMode_of_modes.
  - eapply settles_trans; [exact Hset |].
    eapply settles_trans; [exact Hset1 | exact Mset].
Qed.

(** X13.  showModeSelection returns with the mode of a button that was
    seen closed at a poll and at the re-poll: yellow Classic, green
    Speed, red Reverse, blue Stealth.  A press of button i selects mode
    i and consumes just that press.  Nothing but the mode changes, and
    without a confirmed press the function never returns. *)
Theorem mode_selection (st : state) :
  (forall st',
     showModeSelection st = Some st' ->
     exists i,
       0 <= i <= 3 /\ closed_twice i (pins st) /\
       modes !! Z.to_nat i = Some (currentMode st') /\
       gameSequence st' = gameSequence st /\ Level st' = Level st /\
       lives st' = lives st /\ isMuted st' = isMuted st /\
       eeprom st' = eeprom st /\ rnd st' = rnd st /\
       pins st' `suffix_of` pins st /\ settles st st') /\
  (forall i held rest,
     0 <= i <= 3 -> pins st = press i held ++ rest ->
     exists st',
       showModeSelection st = Some st' /\
       modes !! Z.to_nat i = Some (currentMode st') /\ pins st' = rest) /\
  (bounce_only (pins st) = true -> showModeSelection st = None).
Proof.
  split; [intros st'; apply showModeSelection_returns |].
  unfold showModeSelection. cbv zeta.
  set (stp := lcd_print "Y:C G:S R:R B:St" _).
  assert (Pp : pins stp = pins st) by reflexivity.
  split.
  - intros i held rest Hi Hp. cbn [showModeSelection_fuel].
    rewrite (poll_buttons_press stp i held rest Hi) by (rewrite Pp; exact Hp).
    eexists. split; [reflexivity |].
    destruct (mode_selected_spec i (set_pins rest (delay 20 stp)))
      as (Mm & _ & _ & _ & _ & _ & _ & Mp & _).
    split; [rewrite Mm; now apply GameMode_of_modes | exact Mp].
  - intros Hb. apply showModeSelection_fuel_bounce. now rewrite Pp.
Qed.

Lemma mode_selection_witness :
  exists st',
    showModeSelection (power_on CLASSIC false ∅ (press 2 3 ++ [[1]]) [])
    = Some st' /\
    currentMode st' = REVERSE /\ pins st' = [[1]].
Proof.
  destruct (proj1 (proj2 (mode_selection
              (power_on CLASSIC false ∅ (press 2 3 ++ [[1]]) [])))
              2 3%nat [[1]] ltac:(lia) eq_refl)
    as (st' & Hs & Hm & Hp).
  exists st'. split; [exact Hs |]. split; [| exact Hp].
  change (Some REVERSE = Some (currentMode st')) in Hm. congruence.
Defined.

(** ** Start-up as a whole *)

Ltac run_setup :=
  lazy beta iota zeta delta
    [setup configure playIntroMusic checkForMuteToggle digitalRead
     for_loop lcd_clear lcd_setCursor lcd_print lcd_print_num
     emit delay tone noTone set_isMuted set_pins set_eeprom EEPROM_write
     negb orb next_low tail
     gameSequence Level lives isMuted currentMode eeprom pins rnd clock out].

Lemma setup_before_mode st :
  exists st1,
    setup st = showModeSelection st1 /\
    isMuted st1 = isMuted st || next_low (buttonPins_at 1) (pins st) /\
    pins st1 = tail (tail (pins st)) /\
    eeprom st1 = (if next_low resetPin (tail (pins st))
                  then <[highScoreAddress := 0]> (eeprom st) else eeprom st) /\
    gameSequence st1 = gameSequence st /\ Level st1 = Level st /\
    lives st1 = lives st /\ rnd st1 = rnd st /\
    settles st st1.
Proof.
  unfold settles. destruct st as [gs lv li mu mo ee pi rn cl ou].
  destruct mu, pi as [|sm [|sr rest]]; run_setup.
  all: repeat match goal with
       | |- context [is_low ?s ?p] => destruct (is_low s p); run_setup
       end.
  all: eexists; split; [reflexivity |]; run_setup.
  all: splits; try reflexivity.
  all: eexists; split; [rewrite <- !app_assoc; reflexivity | split; reflexivity].
Qed.

(** X14.  setup() reads the script in this order: one sample for the
    mute toggle, one for the reset button, then the polls of the mode
    selection.  When it returns, the sound is muted exactly if the green
    button read closed, the high score is 0 if the reset button read
    closed and untouched otherwise, the mode is the one of a confirmed
    press, the game globals are as initialised, and every LED is off and
    the speaker silent. *)
Theorem setup_result (st st' : state) :
  setup st = Some st' ->
  isMuted st' = isMuted st || next_low (buttonPins_at 1) (pins st) /\
  EEPROM_read highScoreAddress st' =
    (if next_low resetPin (tail (pins st)) then 0
     else EEPROM_read highScoreAddress st) /\
  (forall addr, addr <> highScoreAddress ->
     EEPROM_read addr st' = EEPROM_read addr st) /\
  (exists i,
     0 <= i <= 3 /\ closed_twice i (tail (tail (pins st))) /\
     modes !! Z.to_nat i = Some (currentMode st')) /\
  gameSequence st' = gameSequence st /\ Level st' = Level st /\
  lives st' = lives st /\ rnd st' = rnd st /\
  (booted st -> booted st') /\
  settles st st'.
Proof.
  intros H.
  destruct (setup_before_mode st)
    as (st1 & Hs & Hmu & Hp & He & Hg & Hl & Hli & Hr & Hset).
  rewrite Hs in H.
  destruct (showModeSelection_returns _ _ H)
    as (i & Hi & Hc & Hm & Mg & Ml & Mli & Mmu & Me & Mr & _ & Mset).
  splits; try congruence.
  - unfold EEPROM_read. rewrite Me, He.
    destruct (next_low resetPin _); [now rewrite lookup_insert_eq | reflexivity].
  - intros addr Ha. unfold EEPROM_read. rewrite Me, He.
    destruct (next_low resetPin _); [| reflexivity].
    now rewrite lookup_insert_ne by congruence.
  - exists i. rewrite Hp in Hc. done.
  - intros (Bg & Bl & Bli). unfold booted. splits; congruence.
  - eapply settles_trans; eassumption.
Qed.

Lemma setup_result_witness :
  exists st',
    setup (power_on CLASSIC false ∅ ([[1]; [8]] ++ press 3 0) []) = Some st' /\
    isMuted st' = true /\ EEPROM_read highScoreAddress st' = 0.
Proof.
  destruct (setup (power_on CLASSIC false ∅ ([[1]; [8]] ++ press 3 0) []))
    as [st'|] eqn:E; [| vm_compute in E; discriminate E].
  destruct (setup_result _ _ E) as (Hmu & He & _).
  exists st'. split; [reflexivity |]. split; [exact Hmu | exact He].
Defined.

(** ** The whole sketch *)

Lemma loop_settles_any st st' :
  loop st = Running st' \/ loop st = Halted st' -> settles st st'.
Proof.
  intros Hl. unfold loop in Hl. destruct (lives st =? 0).
  - destruct Hl as [Hl | Hl]; [discriminate |]. injection Hl as <-.
    apply settles_showGameOver.
  - destruct (checkUserSequence _) as [[ok st1]|] eqn:Hc;
      [| destruct Hl; discriminate].
    destruct Hl as [Hl | Hl]; [| discriminate]. injection Hl as <-.
    assert (He : settles st (extend st)).
    { apply settles_same. unfold extend, random.
      destruct (rnd st); cbn; now destruct (_ >=? _). }
    eapply settles_trans; [exact He |].
    eapply settles_trans; [apply settles_playSequence |].
    eapply settles_trans; [eapply settles_check_from, Hc |].
    eapply settles_trans; [| apply settles_report_status].
    destruct ok; [apply settles_report_correct | apply settles_report_wrong].
Qed.

Lemma run_settles n : forall st st',
  run n st = Running st' \/ run n st = Halted st' -> settles st st'.
Proof.
  unfold run. induction n as [|n IH]; intros st st'; simpl.
  - intros [[= <-] | H]; [apply settles_refl | discriminate].
  - destruct (Nat.iter n step (Running st)) as [s1|h|] eqn:E; cbn [step].
    + intros H. eapply settles_trans; [apply IH; left; exact E |].
      now apply loop_settles_any.
    + intros [H | [= <-]]; [discriminate |]. apply IH. right. exact E.
    + intros [H | H]; discriminate.
Qed.

(** X15.  The sketch from power-on (globals as initialised, any EEPROM
    content, any input, any random numbers): after setup() and n calls of
    loop() that returned, Level is min(n, 99) and lives are in 0..3; the
    mute flag is the one chosen at start-up and the stored high score is
    still what start-up left (0 after a reset); and whenever the sketch
    is between two calls of loop(), or halted after the game, every LED
    is off and the speaker is silent. *)
Theorem sketch_keeps (rom : gmap Z Z) (script : list sample) (raw : list Z)
  (n : nat) (st : state) :
  (sketch n (power_on CLASSIC false rom script raw) = Running st ->
   Level st = Z.min (Z.of_nat n) 99 /\ 0 <= lives st <= 3 /\
   isMuted st = next_low (buttonPins_at 1) script /\
   EEPROM_read highScoreAddress st =
     (if next_low resetPin (tail script) then 0
      else default 255 (rom !! highScoreAddress))) /\
  (sketch n (power_on CLASSIC false rom script raw) = Running st \/
   sketch n (power_on CLASSIC false rom script raw) = Halted st ->
   quiescent (out st)).
Proof.
  unfold sketch.
  destruct (setup (power_on CLASSIC false rom script raw)) as [s0|] eqn:Hs.
  - destruct (setup_before_mode (power_on CLASSIC false rom script raw))
      as (s1 & Hs1 & Hmu & _ & He & Hg & Hl & Hli & _ & Hset1).
    rewrite Hs1 in Hs.
    destruct (showModeSelection_returns _ _ Hs)
      as (i & _ & _ & _ & Mg & Ml & Mli & Mmu & Me & _ & _ & Mset).
    assert (Hboot : booted s0).
    { unfold booted. rewrite Mg, Ml, Mli, Hg, Hl, Hli. repeat split. }
    split.
    + intros Hrun.
      destruct (run_invariant n s0 st Hboot Hrun)
        as ((_ & _ & W3 & _) & HL & _ & Hee & _ & Hmm).
      split; [exact HL |]. split; [exact W3 |]. split.
      * rewrite Hmm, Mmu, Hmu. reflexivity.
      * unfold EEPROM_read. rewrite Hee, Me, He. cbn [pins power_on eeprom].
        destruct (next_low resetPin _);
          [now rewrite lookup_insert_eq | reflexivity].
    + intros Hrun. apply (settles_quiescent (power_on CLASSIC false rom script raw));
        [split; reflexivity |].
      eapply settles_trans; [exact Hset1 |].
      eapply settles_trans; [exact Mset |]. exact (run_settles n s0 st Hrun).
  - split; [discriminate | intros [H | H]; discriminate].
Qed.

Lemma sketch_keeps_witness :
  exists st,
    sketch 2 (power_on CLASSIC false ∅ ([[1]; []] ++ press 1 0) [5])
      = Running st /\
    Level st = 2 /\ isMuted st = true /\ quiescent (out st).
Proof.
  destruct (sketch 2 (power_on CLASSIC false ∅ ([[1]; []] ++ press 1 0) [5]))
    as [st| |] eqn:E; try (vm_compute in E; discriminate E).
  destruct (sketch_keeps ∅ ([[1]; []] ++ press 1 0) [5] 2 st) as [H1 H2].
  destruct (H1 E) as (HL & _ & Hmu & _).
  exists st. split; [reflexivity |]. split; [exact HL |].
  split; [exact Hmu | apply H2; left; exact E].
Defined.

(** ** What the countdown shows first *)

(** X16.  The first thing readButtonsWithCountdown does is to show the
    countdown, and the number it shows is one more than the whole seconds
    of the deadline: "Time left: 4" for 3000 ms. *)
Theorem countdown_first_display (ct : Z) (st : state) (a : Z) (str : state) :
  0 < ct < 32767000 ->
  readButtonsWithCountdown ct st = Some (a, str) ->
  exists evs,
    out str = out st ++ [LcdClear; LcdSetCursor 3 0; LcdPrint "Your turn!";
                         LcdSetCursor 3 1; LcdPrint "Time left: ";
                         LcdPrintNum (ct / 1000 + 1)] ++ evs.
Proof.
  intros Hct. unfold readButtonsWithCountdown.
  rewrite countdown_loop_unfold. unfold millis. rewrite Z.sub_diag.
  change (to_ulong 0) with 0.
  destruct (Z.ltb_spec 0 ct) as [_ | ?]; [| lia]. cbv zeta.
  rewrite Z.sub_0_r, (to_ulong_small ct) by lia.
  assert (Hq : 0 <= ct / 1000 < 32767).
  { split; [apply Z.div_pos; lia | apply Z.div_lt_upper_bound; lia]. }
  rewrite (to_int_small (ct / 1000)) by lia.
  destruct (Z.eqb_spec (ct / 1000) (-1)) as [? | _]; [lia |]. cbn [negb].
  assert (Hd : out (countdown_display (ct / 1000) st)
               = out st ++ [LcdClear; LcdSetCursor 3 0; LcdPrint "Your turn!";
                            LcdSetCursor 3 1; LcdPrint "Time left: ";
                            LcdPrintNum (ct / 1000 + 1)]).
  { unfold countdown_display, lcd_clear, lcd_setCursor, lcd_print,
      lcd_print_num. cbn [out emit].
    rewrite (to_int_small (ct / 1000 + 1)) by lia.
    now rewrite <- !app_assoc. }
  destruct (poll_buttons 4 0 _) as [[k|] st2] eqn:Ep;
    destruct (settles_poll_buttons _ _ _ _ _ Ep) as (e1 & H1 & _).
  - intros [= _ <-]. exists e1. now rewrite H1, Hd, <- app_assoc.
  - intros H. destruct (settles_countdown_loop _ _ _ _ _ _ _ H) as (e2 & H2 & _).
    exists (e1 ++ [Delay 10] ++ e2).
    rewrite H2. cbn [out delay]. rewrite H1, Hd, <- !app_assoc. reflexivity.
Qed.

Lemma countdown_first_display_witness :
  exists a str evs,
    readButtonsWithCountdown 3000 (playing SPEED false [1] []) = Some (a, str) /\
    out str = [LcdClear; LcdSetCursor 3 0; LcdPrint "Your turn!";
               LcdSetCursor 3 1; LcdPrint "Time left: "; LcdPrintNum 4] ++ evs.
Proof.
  destruct (readButtonsWithCountdown 3000 (playing SPEED false [1] []))
    as [[a str]|] eqn:E; [| vm_compute in E; discriminate E].
  destruct (countdown_first_display 3000 _ a str ltac:(lia) E) as (evs & H).
  exists a, str, evs. split; [reflexivity | exact H].
Defined.
